(** * CCM MQTT / OTA subscribe example: the host program of [main.c]

    The host drives the Cloud Connectivity Manager (CCM) module with AT
    commands.  [main.c] holds the provisioning flow, the pre-loop drain of the
    module's event queue, the interrupt callback and the event loop.  The
    command/response engine [at_command_send_receive], the status helpers
    [is_aws_connected] / [is_wifi_connected], [handle_error] and [delay_ms]
    are declared in [CCM.h] and are not part of [main.c].

    The program is embedded as a labelled state machine whose program points
    are the source lines of [main.c].  The module and the interrupt line are
    the environment: every move of an execution is either one run of the
    interrupt callback or one step of the main thread, fed with what the
    module answers at that step.  Debug [printf] output and the board/UART
    bring-up calls are not modelled. *)

From Stdlib Require Import ZArith List Bool Ascii String Lia.
Import ListNotations.
Open Scope string_scope.
Open Scope Z_scope.

(* ------------------------------------------------------------------------- *)
(** ** C strings *)

Definition CR : ascii := ascii_of_nat 13.
Definition LF : ascii := ascii_of_nat 10.

(** ["\n"] and ["\r\n"] of the C literals. *)
Definition nl : string := String LF EmptyString.
Definition crlf : string := String CR (String LF EmptyString).

Definition uchar (c : ascii) : Z := Z.of_N (N_of_ascii c).

(** [strcmp] of the C library on the contents of two NUL-terminated strings
    (a [string] here is the text before the terminator): the sign of the
    difference of the first pair of differing unsigned characters. *)
Fixpoint strcmp (a b : string) : Z :=
  match a, b with
  | EmptyString, EmptyString => 0
  | EmptyString, String _ _ => -1
  | String _ _, EmptyString => 1
  | String c a', String d b' =>
      if (uchar c =? uchar d) then strcmp a' b'
      else if (uchar c <? uchar d) then -1 else 1
  end.

(** A [char *] is a string or [NULL]; [strcmp] on [NULL] is undefined. *)
Definition strcmp_ptr (a : string) (b : option string) : option Z :=
  match b with
  | None => None
  | Some b' => Some (strcmp a b')
  end.

(* ------------------------------------------------------------------------- *)
(** ** Macros of [main.c] *)

Definition RESPONSE_DELAY : Z := 120000.
Definition SUCCESS : Z := 1.
Definition FAILURE : Z := 0.
Definition POLLING_DELAY : Z := 60000.

Definition SET_SSID : string := "AT+CONF SSID=" ++ nl.
Definition SET_PASSPHRASE : string := "AT+CONF Passphrase=" ++ nl.
Definition SET_ENDPOINT : string := "AT+CONF Endpoint=" ++ nl.

(** The remaining command literals of [main.c]. *)
Definition AT_DISCONNECT : string := "AT+DISCONNECT" ++ nl.
Definition AT_CONNECT : string := "AT+CONNECT" ++ nl.
Definition AT_CLOUD_SYNC : string := "AT+CLOUD_SYNC" ++ nl.
Definition AT_CONF_TOPIC1 : string := "AT+CONF Topic1=data" ++ nl.
Definition AT_SUBSCRIBE1 : string := "AT+SUBSCRIBE1" ++ nl.
Definition AT_EVENT : string := "AT+EVENT?" ++ nl.
Definition AT_GET1 : string := "AT+GET1" ++ nl.
Definition AT_OTA_ACCEPT : string := "AT+OTA ACCEPT" ++ nl.
Definition AT_OTA_APPLY : string := "AT+OTA APPLY" ++ nl.
Definition AT_CONFMODE : string := "AT+CONFMODE" ++ nl.

(** The reply literals of [main.c]. *)
Definition OK_CONNECTED : string := "OK 1 CONNECTED" ++ crlf.
Definition OK_IDLE : string := "OK" ++ crlf.
Definition EV_MSG : string := "OK 1 1 MSG" ++ crlf.
Definition EV_OTA_OFFERED : string := "OK 5 1 OTA" ++ crlf.
Definition EV_OTA_VERIFIED : string := "OK 5 4 OTA" ++ crlf.
Definition EV_STARTUP : string := "OK 2 0 STARTUP" ++ crlf.

(** The build-time switches ([#define]s tested by [#if]) and the one constant
    that [main.c] takes from [CCM.h]. *)
Record BuildConfig := {
  MODIFY_SSID_AFTER_CONNECTED : bool;
  CIRRENT_APP_ONBOARDING : bool;
  AWS_FLOW : bool;
  MAX_CONNECT_DELAY : Z
}.

(** The values in [main.c]: [(0)], [(0)] and [(1)].  [MAX_CONNECT_DELAY] is
    the 120 seconds announced by the message printed before the delay. *)
Definition build : BuildConfig :=
  {| MODIFY_SSID_AFTER_CONNECTED := false;
     CIRRENT_APP_ONBOARDING := false;
     AWS_FLOW := true;
     MAX_CONNECT_DELAY := 120000 |}.

(* ------------------------------------------------------------------------- *)
(** ** Command/response engine *)

Record ResponseOutcome := {
  status : Z;
  body : option string
}.

(** Modelled from the spec: [at_command_send_receive] is declared in [CCM.h]
    and its body is not in [main.c].  [incoming] is what the transport delivers
    before [timeout] expires ([None]: nothing arrived); [expectedReply] is the
    last argument of the C call ([None] for [NULL]).  The status is what the
    call stores through its [int *] argument, the body is the returned
    [char *]. *)
Definition at_command_send_receive (command : string) (timeout : Z)
    (expectedReply : option string) (incoming : option string)
    : ResponseOutcome :=
  match incoming with
  | None => {| status := FAILURE; body := None |}
  | Some reply =>
      match expectedReply with
      | None => {| status := SUCCESS; body := Some reply |}
      | Some expected =>
          if strcmp expected reply =? 0
          then {| status := SUCCESS; body := Some reply |}
          else {| status := FAILURE; body := Some reply |}
      end
  end.

(* ------------------------------------------------------------------------- *)
(** ** Observable events and machine state *)

Open Scope list_scope.

(** What the host does to the outside world, in order. *)
Inductive event :=
| EvCmd (command : string) (timeout : Z) (expectedReply : option string)
        (incoming : option string)      (* one engine exchange *)
| EvIsAws (connected : bool)            (* is_aws_connected() *)
| EvIsWifi (connected : bool)           (* is_wifi_connected() *)
| EvDelay (ms : Z)                      (* delay_ms() *)
| EvHandleError                         (* handle_error() *)
| EvReset.                              (* NVIC_SystemReset() *)

Inductive halt_reason :=
| HError        (* handle_error() was entered *)
| HReset        (* NVIC_SystemReset() was entered *)
| HUndefined.   (* strcmp() was handed NULL *)

(** Program points, named after the line of [main.c] about to execute;
    [W] lines are in [wifionboarding], [D] lines in [empty_event_queue]. *)
Inductive loc :=
| L103 | L109 | L113 | L116 | L122 | L124 | L126
| L133 | L137 | L143 | L146 | L151 | L153
| L159 | L161
| W227 | W231 | W233 | W239 | W242
| D254 | D256 | D258
| L168 | L171 | L174 | L178 | L186 | L194 | L202 | L205
| Halted (why : halt_reason).

Record state := {
  pc : loc;
  gpio_intr_flag : bool;          (* global, shared with the callback *)
  result : Z;                     (* global [result] *)
  response : option string;       (* global [response] *)
  drain_result : Z;               (* local [result] of empty_event_queue *)
  trace : list event
}.

(** What the environment supplies to one step of the main thread: the reply
    the transport delivers (used by engine calls) and the answer of the status
    helper (used by [is_aws_connected] / [is_wifi_connected]). *)
Record env_in := {
  reply : option string;
  connected : bool
}.

Definition goto (l : loc) (s : state) : state :=
  {| pc := l; gpio_intr_flag := gpio_intr_flag s; result := result s;
     response := response s; drain_result := drain_result s;
     trace := trace s |}.

Definition emit (e : event) (s : state) : state :=
  {| pc := pc s; gpio_intr_flag := gpio_intr_flag s; result := result s;
     response := response s; drain_result := drain_result s;
     trace := trace s ++ [e] |}.

Definition set_flag (b : bool) (s : state) : state :=
  {| pc := pc s; gpio_intr_flag := b; result := result s;
     response := response s; drain_result := drain_result s;
     trace := trace s |}.

Definition set_result (r : Z) (s : state) : state :=
  {| pc := pc s; gpio_intr_flag := gpio_intr_flag s; result := r;
     response := response s; drain_result := drain_result s;
     trace := trace s |}.

Definition set_response (r : option string) (s : state) : state :=
  {| pc := pc s; gpio_intr_flag := gpio_intr_flag s; result := result s;
     response := r; drain_result := drain_result s;
     trace := trace s |}.

Definition set_drain_result (r : Z) (s : state) : state :=
  {| pc := pc s; gpio_intr_flag := gpio_intr_flag s; result := result s;
     response := response s; drain_result := r;
     trace := trace s |}.

(** [at_command_send_receive(cmd, RESPONSE_DELAY, &result, expected)] with the
    global [result]; the returned pointer is dropped. *)
Definition at_global (i : env_in) (cmd : string) (expected : option string)
    (next : loc) (s : state) : state :=
  let o := at_command_send_receive cmd RESPONSE_DELAY expected (reply i) in
  goto next
    (set_result (status o) (emit (EvCmd cmd RESPONSE_DELAY expected (reply i)) s)).

(** Modelled from the spec: [is_aws_connected] and [is_wifi_connected] are
    declared in [CCM.h] and their bodies are not in [main.c].  The spec has the
    connectivity state "derived on demand by querying the module": the answer
    is what the module reports at that moment, supplied by the environment. *)
Definition is_aws_connected (i : env_in) (s : state) : bool * state :=
  (connected i, emit (EvIsAws (connected i)) s).

Definition is_wifi_connected (i : env_in) (s : state) : bool * state :=
  (connected i, emit (EvIsWifi (connected i)) s).

(** Modelled from the spec: [delay_ms] is declared in [CCM.h]; it is a
    blocking wait and only the call is recorded. *)
Definition delay_ms (ms : Z) (s : state) : state := emit (EvDelay ms) s.

(** Modelled from the spec: [handle_error] is declared in [CCM.h]; the spec has
    it as "an unconditional error-handling exit" after which the process does
    not continue: it is entered and never returns. *)
Definition handle_error (s : state) : state :=
  goto (Halted HError) (emit EvHandleError s).

(** [NVIC_SystemReset] of CMSIS restarts the host and does not return. *)
Definition NVIC_SystemReset (s : state) : state :=
  goto (Halted HReset) (emit EvReset s).

(** The four literals of the classification chain, in source order. *)
Inductive EventClassification :=
| MessageAvailable | OtaOffered | OtaVerified | Startup | Unrecognized.

(** The [if] / [else if] chain of lines 174-198; [None] when [strcmp] is
    handed [NULL]. *)
Definition classify (resp : option string) : option EventClassification :=
  match strcmp_ptr EV_MSG resp with
  | None => None
  | Some c1 =>
    if c1 =? 0 then Some MessageAvailable else
    match strcmp_ptr EV_OTA_OFFERED resp with
    | None => None
    | Some c2 =>
      if c2 =? 0 then Some OtaOffered else
      match strcmp_ptr EV_OTA_VERIFIED resp with
      | None => None
      | Some c3 =>
        if c3 =? 0 then Some OtaVerified else
        match strcmp_ptr EV_STARTUP resp with
        | None => None
        | Some c4 => if c4 =? 0 then Some Startup else Some Unrecognized
        end
      end
    end
  end.

Definition dispatch_loc (c : EventClassification) : loc :=
  match c with
  | MessageAvailable => L178
  | OtaOffered => L186
  | OtaVerified => L194
  | Startup => L202
  | Unrecognized => L205
  end.

(* ------------------------------------------------------------------------- *)
(** ** The three functions of [main.c] *)

(** Line 118 / 139: the first line of [wifionboarding] under the build. *)
Definition wifionboarding_entry (cfg : BuildConfig) : loc :=
  if CIRRENT_APP_ONBOARDING cfg then W227 else W239.

(** The line after the call of [wifionboarding]. *)
Definition wifionboarding_return (cfg : BuildConfig) : loc :=
  if AWS_FLOW cfg then L122 else L143.

(** The first line of the provisioning flow selected by [AWS_FLOW]. *)
Definition flow_entry (cfg : BuildConfig) : loc :=
  if AWS_FLOW cfg then L109 else L133.

Definition main_entry (cfg : BuildConfig) : loc :=
  if MODIFY_SSID_AFTER_CONNECTED cfg then L103 else flow_entry cfg.

(** [static void wifionboarding()] *)
Definition wifionboarding (cfg : BuildConfig) (i : env_in) (s : state)
    : state :=
  match pc s with
  | W227 => at_global i AT_CONFMODE None W231 s
  | W231 =>
      let (up, s') := is_wifi_connected i s in
      if negb up then goto W233 s'
      else goto (wifionboarding_return cfg) s'
  | W233 => goto W231 (delay_ms POLLING_DELAY s)
  | W239 => at_global i SET_SSID None W242 s
  | W242 => at_global i SET_PASSPHRASE None (wifionboarding_return cfg) s
  | _ => s
  end.

(** [static void empty_event_queue()]; it returns into the event loop. *)
Definition empty_event_queue (i : env_in) (s : state) : state :=
  match pc s with
  | D254 => goto D256 (set_drain_result 0 s)
  | D256 => if drain_result s =? 0 then goto D258 s else goto L168 s
  | D258 =>
      let o := at_command_send_receive AT_EVENT RESPONSE_DELAY
                 (Some OK_IDLE) (reply i) in
      goto D256
        (set_drain_result (status o)
           (emit (EvCmd AT_EVENT RESPONSE_DELAY (Some OK_IDLE) (reply i)) s))
  | _ => s
  end.

(** [static void gpio_interrupt_handler(void *, cyhal_gpio_event_t)] *)
Definition gpio_interrupt_handler (s : state) : state := set_flag true s.

(** One step of [int main()] (and of the two functions it calls). *)
Definition main_step (cfg : BuildConfig) (i : env_in) (s : state) : state :=
  match pc s with
  | L103 => at_global i AT_DISCONNECT None (flow_entry cfg) s
  (* #if AWS_FLOW *)
  | L109 =>
      let (up, s') := is_aws_connected i s in
      if negb up then goto L113 s' else goto L159 s'
  | L113 => at_global i SET_ENDPOINT None L116 s
  | L116 =>
      let (up, s') := is_wifi_connected i s in
      if negb up then goto (wifionboarding_entry cfg) s'
      else goto L122 s'
  | L122 => at_global i AT_CONNECT (Some OK_CONNECTED) L124 s
  | L124 => if negb (result s =? SUCCESS) then goto L126 s else goto L159 s
  | L126 => handle_error s
  (* #else *)
  | L133 =>
      let (up, s') := is_aws_connected i s in
      if negb up then goto L137 s' else goto L159 s'
  | L137 =>
      let (up, s') := is_wifi_connected i s in
      if negb up then goto (wifionboarding_entry cfg) s'
      else goto L143 s'
  | L143 => at_global i AT_CONNECT None L146 s
  | L146 => at_global i AT_CLOUD_SYNC None L151 s
  | L151 => goto L153 (delay_ms (MAX_CONNECT_DELAY cfg) s)
  | L153 =>
      let (up, s') := is_aws_connected i s in
      if negb up then goto L153 s' else goto L159 s'
  (* #endif *)
  | L159 => at_global i AT_CONF_TOPIC1 None L161 s
  | L161 => at_global i AT_SUBSCRIBE1 None D254 s
  | W227 | W231 | W233 | W239 | W242 => wifionboarding cfg i s
  | D254 | D256 | D258 => empty_event_queue i s
  (* while (1) *)
  | L168 => if gpio_intr_flag s then goto L171 s else goto L168 s
  | L171 =>
      let o := at_command_send_receive AT_EVENT RESPONSE_DELAY None (reply i) in
      goto L174
        (set_response (body o)
           (set_result (status o)
              (emit (EvCmd AT_EVENT RESPONSE_DELAY None (reply i)) s)))
  | L174 =>
      match classify (response s) with
      | None => goto (Halted HUndefined) s
      | Some c => goto (dispatch_loc c) s
      end
  | L178 => at_global i AT_GET1 None L205 s
  | L186 => at_global i AT_OTA_ACCEPT None L205 s
  | L194 => at_global i AT_OTA_APPLY None L205 s
  | L202 => NVIC_SystemReset s
  | L205 => goto L168 (set_flag false s)
  | Halted _ => s
  end.

(** The globals as initialised at lines 54-56, at the first statement that
    talks to the module. *)
Definition init (cfg : BuildConfig) : state :=
  {| pc := main_entry cfg; gpio_intr_flag := false; result := 0;
     response := None; drain_result := 0; trace := [] |}.

(* ------------------------------------------------------------------------- *)
(** ** Executions *)

(** A move is one run of the interrupt callback or one step of the main
    thread.  [handle_error], [NVIC_SystemReset] and undefined behaviour end
    the execution: no move changes a halted state. *)
Inductive move :=
| Irq
| Go (i : env_in).

Definition halted (s : state) : bool :=
  match pc s with
  | Halted _ => true
  | _ => false
  end.

Definition do_move (cfg : BuildConfig) (m : move) (s : state) : state :=
  if halted s then s
  else match m with
       | Irq => gpio_interrupt_handler s
       | Go i => main_step cfg i s
       end.

Definition exec (cfg : BuildConfig) (ms : list move) (s : state) : state :=
  fold_left (fun s m => do_move cfg m s) ms s.

(** The inputs consumed by the main thread along a list of moves. *)
Fixpoint main_inputs (ms : list move) : list env_in :=
  match ms with
  | [] => []
  | Irq :: ms' => main_inputs ms'
  | Go i :: ms' => i :: main_inputs ms'
  end.

(* ------------------------------------------------------------------------- *)
(** ** Vocabulary used by the statements *)

(** The literals tested by the classification chain. *)
Definition event_patterns : list string :=
  [EV_MSG; EV_OTA_OFFERED; EV_OTA_VERIFIED; EV_STARTUP].

(** The command a recognised event dispatches, if any (lines 178, 186, 194). *)
Definition dispatch_command (c : EventClassification) : option string :=
  match c with
  | MessageAvailable => Some AT_GET1
  | OtaOffered => Some AT_OTA_ACCEPT
  | OtaVerified => Some AT_OTA_APPLY
  | Startup => None
  | Unrecognized => None
  end.

(** Configuration commands are the [AT+CONF key=value] instructions; connect
    commands are the [AT+CONNECT] instructions. *)
Definition is_conf_command (c : string) : bool := String.prefix "AT+CONF " c.
Definition is_connect_command (c : string) : bool := String.prefix "AT+CONNECT" c.

(** The answer to the first cloud-connection status query of a trace. *)
Fixpoint first_aws_status (t : list event) : option bool :=
  match t with
  | [] => None
  | EvIsAws b :: _ => Some b
  | _ :: t' => first_aws_status t'
  end.

(** The exchanges the statements below single out. *)
Definition connect_exchange (r : option string) : event :=
  EvCmd AT_CONNECT RESPONSE_DELAY (Some OK_CONNECTED) r.
Definition event_query (r : option string) : event :=
  EvCmd AT_EVENT RESPONSE_DELAY None r.
Definition drain_query (r : option string) : event :=
  EvCmd AT_EVENT RESPONSE_DELAY (Some OK_IDLE) r.

(** The expected-reply argument of an exchange. *)
Definition expected_of (e : event) : option string :=
  match e with
  | EvCmd _ _ ex _ => ex
  | _ => None
  end.

(** The main thread running alone against a module that answers the k-th
    exchange after [base] earlier events with [r k]. *)
Definition stream_input (r : nat -> option string) (base : nat) (s : state)
    : env_in :=
  {| reply := r (List.length (trace s) - base)%nat; connected := false |}.

Fixpoint run_stream (cfg : BuildConfig) (r : nat -> option string)
    (base : nat) (n : nat) (s : state) : state :=
  match n with
  | O => s
  | S n' =>
      run_stream cfg r base n' (do_move cfg (Go (stream_input r base s)) s)
  end.

(** A state at line 205 whose pass went through the event query and the
    classification chain: the trace ends with the query that produced
    [response], followed by the command dispatched for its class, if any. *)
Definition pass_completed (s : state) : Prop :=
  exists pre d c,
    response s = Some d /\ classify (Some d) = Some c /\ c <> Startup /\
    match dispatch_command c with
    | None => trace s = pre ++ [event_query (Some d)]
    | Some cmd =>
        exists r, trace s = pre ++ [event_query (Some d);
                                    EvCmd cmd RESPONSE_DELAY None r]
    end.

(** The state in which the dispatch of a recognised event of class [c]
    leaves a pass that started in [s] with the flag set and whose event query
    was answered with [d]: after the dispatched command (answered with [r]) at
    line 205, or halted in the host reset. *)
Definition after_dispatch (s : state) (d : string) (c : EventClassification)
    (r : option string) : state :=
  match dispatch_command c with
  | Some cmd =>
      {| pc := L205; gpio_intr_flag := true;
         result := status (at_command_send_receive cmd RESPONSE_DELAY None r);
         response := Some d; drain_result := drain_result s;
         trace := trace s ++ [event_query (Some d);
                              EvCmd cmd RESPONSE_DELAY None r] |}
  | None =>
      {| pc := Halted HReset; gpio_intr_flag := true; result := SUCCESS;
         response := Some d; drain_result := drain_result s;
         trace := trace s ++ [event_query (Some d); EvReset] |}
  end.

(** What every execution guarantees inside a pass: at the classification
    chain the trace ends with the query that produced [response]; at a dispatch
    line the response is a text of the class that leads there; at line 205 the
    pass is complete. *)
Definition pass_inv (s : state) : Prop :=
  match pc s with
  | L174 => exists pre, trace s = pre ++ [event_query (response s)]
  | L178 | L186 | L194 | L202 =>
      exists pre d c,
        response s = Some d /\ classify (Some d) = Some c /\
        dispatch_loc c = pc s /\ trace s = pre ++ [event_query (Some d)]
  | L205 => pass_completed s
  | _ => True
  end.

(** Traces without a call of [handle_error], without a cloud-connect exchange,
    and with successful cloud-connect exchanges only. *)
Definition no_fatal (t : list event) : Prop := ~ In EvHandleError t.
Definition no_connect (t : list event) : Prop :=
  forall r, ~ In (connect_exchange r) t.
Definition connects_ok (t : list event) : Prop :=
  forall r, In (connect_exchange r) t -> r = Some OK_CONNECTED.

(** Lines of the primary flow before the connect command has been sent. *)
Definition before_connect (l : loc) : bool :=
  match l with
  | L103 | L109 | L113 | L116 | W227 | W231 | W233 | W239 | W242 | L122 => true
  | _ => false
  end.

(** Lines reached only past the check of line 124, or without connecting. *)
Definition past_connect (l : loc) : bool :=
  match l with
  | L159 | L161 | D254 | D256 | D258
  | L168 | L171 | L174 | L178 | L186 | L194 | L202 | L205
  | Halted HReset | Halted HUndefined => true
  | _ => false
  end.

(** Where the primary flow stands with respect to the connect command, and
    what its trace looks like there. *)
Definition fatal_inv (s : state) : Prop :=
  (before_connect (pc s) = true /\
   no_fatal (trace s) /\ no_connect (trace s)) \/
  (exists pre r,
     no_fatal pre /\ no_connect pre /\
     trace s = pre ++ [connect_exchange r] /\
     ((pc s = L124 /\ (result s = SUCCESS <-> r = Some OK_CONNECTED)) \/
      (pc s = L126 /\ r <> Some OK_CONNECTED))) \/
  (exists pre r,
     no_fatal pre /\ no_connect pre /\
     trace s = pre ++ [connect_exchange r; EvHandleError] /\
     pc s = Halted HError /\ r <> Some OK_CONNECTED) \/
  (past_connect (pc s) = true /\
   no_fatal (trace s) /\ connects_ok (trace s)).

(** Lines at which the main thread neither reads nor writes the flag. *)
Definition flag_blind (l : loc) : bool :=
  match l with
  | L168 | L205 | Halted _ => false
  | _ => true
  end.

(** Events a run that skips provisioning may contain: any event but a connect
    command or a configuration command other than the topic command. *)
Definition skips_provisioning (e : event) : bool :=
  match e with
  | EvCmd c _ _ _ =>
      negb (is_connect_command c)
      && (negb (is_conf_command c) || String.eqb c AT_CONF_TOPIC1)
  | _ => true
  end.

(** The first lines of [main], up to the first cloud-connection query. *)
Definition at_entry (l : loc) : bool :=
  match l with
  | L103 | L109 | L133 => true
  | _ => false
  end.

(** Where a run stands, by the answer to its first cloud-connection query. *)
Definition skip_inv (s : state) : Prop :=
  match first_aws_status (trace s) with
  | None =>
      at_entry (pc s) = true /\
      Forall (fun e => skips_provisioning e = true) (trace s)
  | Some true =>
      past_connect (pc s) = true /\
      Forall (fun e => skips_provisioning e = true) (trace s)
  | Some false => True
  end.

(* ------------------------------------------------------------------------- *)
(** ** Vocabulary of the further properties *)

(** The main thread running alone on a list of inputs. *)
Fixpoint main_run (cfg : BuildConfig) (inputs : list env_in) (s : state)
    : state :=
  match inputs with
  | [] => s
  | i :: rest => main_run cfg rest (main_step cfg i s)
  end.

(** No step of the run is taken at a line that reads or writes the flag, or
    in a halted state. *)
Fixpoint blind_path (cfg : BuildConfig) (inputs : list env_in) (s : state)
    : bool :=
  match inputs with
  | [] => true
  | i :: rest => flag_blind (pc s) && blind_path cfg rest (main_step cfg i s)
  end.

(** The event queries of the loop (line 171), as opposed to the drain's. *)
Definition is_event_query (e : event) : bool :=
  match e with
  | EvCmd c _ None _ => String.eqb c AT_EVENT
  | _ => false
  end.

(** How many event queries a trace holds, and how often the callback ran. *)
Definition count_event_queries (t : list event) : nat :=
  List.length (filter is_event_query t).

Fixpoint count_irq (ms : list move) : nat :=
  match ms with
  | [] => O
  | Irq :: ms' => S (count_irq ms')
  | Go _ :: ms' => count_irq ms'
  end.

(** A set flag, or a pass already begun, that has not yet led to its query. *)
Definition query_owed (s : state) : bool :=
  match pc s with
  | L171 => true
  | L174 | L178 | L186 | L194 | L202 | L205 | Halted _ => false
  | _ => gpio_intr_flag s
  end.

(** The lines the preprocessor keeps under a build ([#if] / [#else]). *)
Definition line_enabled (cfg : BuildConfig) (l : loc) : bool :=
  match l with
  | L103 => MODIFY_SSID_AFTER_CONNECTED cfg
  | L109 | L113 | L116 | L122 | L124 | L126 | Halted HError => AWS_FLOW cfg
  | L133 | L137 | L143 | L146 | L151 | L153 => negb (AWS_FLOW cfg)
  | W227 | W231 | W233 => CIRRENT_APP_ONBOARDING cfg
  | W239 | W242 => negb (CIRRENT_APP_ONBOARDING cfg)
  | _ => true
  end.

(** The engine calls the preprocessor keeps, as command and expected reply. *)
Definition allowed_exchanges (cfg : BuildConfig)
    : list (string * option string) :=
  (if MODIFY_SSID_AFTER_CONNECTED cfg then [(AT_DISCONNECT, None)] else [])
  ++ (if AWS_FLOW cfg
      then [(SET_ENDPOINT, None); (AT_CONNECT, Some OK_CONNECTED)]
      else [(AT_CONNECT, None); (AT_CLOUD_SYNC, None)])
  ++ (if CIRRENT_APP_ONBOARDING cfg
      then [(AT_CONFMODE, None)]
      else [(SET_SSID, None); (SET_PASSPHRASE, None)])
  ++ [(AT_CONF_TOPIC1, None); (AT_SUBSCRIBE1, None);
      (AT_EVENT, Some OK_IDLE); (AT_EVENT, None);
      (AT_GET1, None); (AT_OTA_ACCEPT, None); (AT_OTA_APPLY, None)].

(** The events a build can produce. *)
Definition event_enabled (cfg : BuildConfig) (e : event) : Prop :=
  match e with
  | EvCmd c tm ex _ => tm = RESPONSE_DELAY /\ In (c, ex) (allowed_exchanges cfg)
  | EvDelay ms =>
      (CIRRENT_APP_ONBOARDING cfg = true /\ ms = POLLING_DELAY) \/
      (AWS_FLOW cfg = false /\ ms = MAX_CONNECT_DELAY cfg)
  | EvHandleError => AWS_FLOW cfg = true
  | _ => True
  end.

(** Every execution stays on the lines, and within the events, of its
    build. *)
Definition build_inv (cfg : BuildConfig) (s : state) : Prop :=
  line_enabled cfg (pc s) = true /\ Forall (event_enabled cfg) (trace s).

(** Lines of [empty_event_queue] and of the event loop, and the halts reached
    from there. *)
Definition subscribed (l : loc) : bool :=
  match l with
  | D254 | D256 | D258
  | L168 | L171 | L174 | L178 | L186 | L194 | L202 | L205
  | Halted HReset | Halted HUndefined => true
  | _ => false
  end.

(** The exchanges of lines 159 and 161. *)
Definition topic_exchange (r : option string) : event :=
  EvCmd AT_CONF_TOPIC1 RESPONSE_DELAY None r.
Definition subscribe_exchange (r : option string) : event :=
  EvCmd AT_SUBSCRIBE1 RESPONSE_DELAY None r.

(** The commands of the drain and of the event loop. *)
Definition is_loop_command (e : event) : bool :=
  match e with
  | EvCmd c _ _ _ =>
      String.eqb c AT_EVENT || String.eqb c AT_GET1
      || String.eqb c AT_OTA_ACCEPT || String.eqb c AT_OTA_APPLY
  | _ => false
  end.

(** Traces without a command of the drain or of the event loop. *)
Definition before_loop (t : list event) : Prop :=
  Forall (fun e => is_loop_command e = false) t.

(** The topic command has been sent by line 161, and the subscribe command
    right after it by the time the drain starts; nothing before them is a
    command of the drain or of the event loop. *)
Definition subscribe_inv (s : state) : Prop :=
  (subscribed (pc s) = false -> before_loop (trace s)) /\
  (pc s = L161 -> exists pre r1, trace s = pre ++ [topic_exchange r1]) /\
  (subscribed (pc s) = true ->
   exists pre r1 r2 post,
     before_loop pre /\
     trace s = pre ++ [topic_exchange r1; subscribe_exchange r2] ++ post).


(** What the most recent event query of a trace returned ([None] before the
    first one, and when it timed out). *)
Definition last_query_reply (t : list event) : option string :=
  fold_left (fun acc e =>
               match e with
               | EvCmd _ _ _ r => if is_event_query e then r else acc
               | _ => acc
               end) t None.

(** The lines of [empty_event_queue], and the lines of the event loop with
    the halts. *)
Definition in_drain (l : loc) : bool :=
  match l with
  | D254 | D256 | D258 => true
  | _ => false
  end.

Definition in_loop (l : loc) : bool :=
  match l with
  | L168 | L171 | L174 | L178 | L186 | L194 | L202 | L205 | Halted _ => true
  | _ => false
  end.

(** The exchange of line 103. *)
Definition disconnect_exchange (r : option string) : event :=
  EvCmd AT_DISCONNECT RESPONSE_DELAY None r.

Definition is_disconnect (e : event) : bool :=
  match e with
  | EvCmd c _ _ _ => String.eqb c AT_DISCONNECT
  | _ => false
  end.

(** With the switch on, line 103 runs first on an empty trace; past it the
    trace holds the disconnect exchange at its head, if the switch is on, and
    nowhere else. *)
Definition disconnect_inv (cfg : BuildConfig) (s : state) : Prop :=
  match pc s with
  | L103 => MODIFY_SSID_AFTER_CONNECTED cfg = true /\ trace s = []
  | _ =>
      exists hd tl,
        trace s = hd ++ tl /\
        Forall (fun e => is_disconnect e = false) tl /\
        ((MODIFY_SSID_AFTER_CONNECTED cfg = false /\ hd = []) \/
         (MODIFY_SSID_AFTER_CONNECTED cfg = true /\
          exists r, hd = [disconnect_exchange r]))
  end.

(** The status queries made so far. *)
Definition is_status_query (e : event) : bool :=
  match e with
  | EvIsAws _ | EvIsWifi _ => true
  | _ => false
  end.

Definition queries_made (t : list event) : nat :=
  List.length (filter is_status_query t).

(** The main thread running alone against a module that answers every command
    with [r0] and the k-th status query after [base] earlier ones with
    [b k]. *)
Definition status_input (r0 : option string) (b : nat -> bool) (base : nat)
    (s : state) : env_in :=
  {| reply := r0; connected := b (queries_made (trace s) - base)%nat |}.

Fixpoint run_status (cfg : BuildConfig) (r0 : option string)
    (b : nat -> bool) (base : nat) (n : nat) (s : state) : state :=
  match n with
  | O => s
  | S n' =>
      run_status cfg r0 b base n'
        (do_move cfg (Go (status_input r0 b base s)) s)
  end.

(** The events of the spin of line 153 and of the polling loop of lines
    231-234 for the first [k] answers of the module. *)
Definition aws_answers (b : nat -> bool) (k : nat) : list event :=
  map (fun j => EvIsAws (b j)) (seq 0 k).

Definition wifi_polls (b : nat -> bool) (k : nat) : list event :=
  flat_map (fun j => [EvIsWifi (b j); EvDelay POLLING_DELAY]) (seq 0 k).

(** The lines of the event loop, with the halts reached from it. *)
Definition looping (l : loc) : bool :=
  match l with
  | L168 | L171 | L174 | L178 | L186 | L194 | L202 | L205
  | Halted HReset | Halted HUndefined => true
  | _ => false
  end.

(** Replies of the drain that keep it going. *)
Definition busy (rs : list (option string)) : Prop :=
  Forall (fun r => r <> Some OK_IDLE) rs.

(** Events that carry no expected reply. *)
Definition unexpecting (t : list event) : Prop :=
  Forall (fun e => expected_of e = None) t.

(** How the trace of an execution is laid out, by the line it stands at:
    first the provisioning, without any command of the drain or of the loop;
    then the topic and subscribe commands; then the queries of the drain, of
    which only the last is answered with the idle literal; then the exchanges
    of the event loop, none of which carries an expected reply. *)
Definition trace_shape (s : state) : Prop :=
  match pc s with
  | L161 =>
      exists before r1,
        before_loop before /\ trace s = before ++ [topic_exchange r1]
  | D254 =>
      exists before r1 r2,
        before_loop before /\
        trace s = before ++ [topic_exchange r1; subscribe_exchange r2]
  | D258 =>
      exists before r1 r2 rs,
        before_loop before /\ busy rs /\
        trace s = before ++ [topic_exchange r1; subscribe_exchange r2]
                  ++ map drain_query rs
  | D256 =>
      exists before r1 r2 rs,
        before_loop before /\ busy rs /\
        ((drain_result s = 0 /\
          trace s = before ++ [topic_exchange r1; subscribe_exchange r2]
                    ++ map drain_query rs) \/
         (drain_result s <> 0 /\
          trace s = before ++ [topic_exchange r1; subscribe_exchange r2]
                    ++ map drain_query rs ++ [drain_query (Some OK_IDLE)]))
  | L168 | L171 | L174 | L178 | L186 | L194 | L202 | L205
  | Halted HReset | Halted HUndefined =>
      exists before r1 r2 rs post,
        before_loop before /\ busy rs /\ unexpecting post /\
        trace s = before ++ [topic_exchange r1; subscribe_exchange r2]
                  ++ map drain_query rs ++ [drain_query (Some OK_IDLE)]
                  ++ post
  | _ => before_loop (trace s)
  end.

(* ------------------------------------------------------------------------- *)
(** ** String comparison *)

Lemma uchar_inj (c d : ascii) : uchar c = uchar d -> c = d.
Proof.
  unfold uchar. intro H. apply N2Z.inj in H.
  rewrite <- (ascii_N_embedding c), <- (ascii_N_embedding d).
  now rewrite H.
Qed.

Lemma strcmp_refl (a : string) : strcmp a a = 0.
Proof.
  induction a as [|c a IH]; simpl; [reflexivity|].
  now rewrite Z.eqb_refl.
Qed.

Lemma strcmp_zero_eq (a : string) : forall b, strcmp a b = 0 -> a = b.
Proof.
  induction a as [|c a IH]; intros [|d b]; simpl; try discriminate; auto.
  destruct (uchar c =? uchar d) eqn:E.
  - intro H. apply Z.eqb_eq, uchar_inj in E. subst d. f_equal. now apply IH.
  - destruct (uchar c <? uchar d); discriminate.
Qed.

Lemma strcmp_eq_iff (a b : string) : strcmp a b = 0 <-> a = b.
Proof.
  split; [apply strcmp_zero_eq|]. intros ->. apply strcmp_refl.
Qed.

Lemma strcmp_eqb (a b : string) : (strcmp a b =? 0) = String.eqb a b.
Proof.
  destruct (String.eqb_spec a b) as [->|N].
  - now rewrite strcmp_refl.
  - apply Z.eqb_neq. intro H. now apply strcmp_zero_eq in H.
Qed.

(** The chain of lines 174-198 as a case distinction on the text. *)
Lemma classify_some (d : string) :
  classify (Some d) =
  Some (if String.eqb EV_MSG d then MessageAvailable
        else if String.eqb EV_OTA_OFFERED d then OtaOffered
        else if String.eqb EV_OTA_VERIFIED d then OtaVerified
        else if String.eqb EV_STARTUP d then Startup
        else Unrecognized).
Proof.
  unfold classify, strcmp_ptr. rewrite !strcmp_eqb.
  destruct (String.eqb EV_MSG d); [reflexivity|].
  destruct (String.eqb EV_OTA_OFFERED d); [reflexivity|].
  destruct (String.eqb EV_OTA_VERIFIED d); [reflexivity|].
  destruct (String.eqb EV_STARTUP d); reflexivity.
Qed.

Lemma classify_unmatched (d : string) :
  ~ In d event_patterns -> classify (Some d) = Some Unrecognized.
Proof.
  intro H. rewrite classify_some.
  destruct (String.eqb_spec EV_MSG d) as [E|_];
    [exfalso; apply H; simpl; auto|].
  destruct (String.eqb_spec EV_OTA_OFFERED d) as [E|_];
    [exfalso; apply H; simpl; auto|].
  destruct (String.eqb_spec EV_OTA_VERIFIED d) as [E|_];
    [exfalso; apply H; simpl; auto|].
  destruct (String.eqb_spec EV_STARTUP d) as [E|_];
    [exfalso; apply H; simpl; auto|].
  reflexivity.
Qed.

(* ------------------------------------------------------------------------- *)
(** ** Executions: generic facts *)

Lemma exec_app cfg (ms1 ms2 : list move) (s : state) :
  exec cfg (ms1 ++ ms2) s = exec cfg ms2 (exec cfg ms1 s).
Proof. unfold exec. apply fold_left_app. Qed.

Lemma exec_snoc cfg (ms : list move) (m : move) (s : state) :
  exec cfg (ms ++ [m]) s = do_move cfg m (exec cfg ms s).
Proof. now rewrite exec_app. Qed.

Lemma do_move_halted cfg m s : halted s = true -> do_move cfg m s = s.
Proof. unfold do_move. now intros ->. Qed.

Lemma exec_halted cfg ms : forall s, halted s = true -> exec cfg ms s = s.
Proof.
  induction ms as [|m ms IH]; intros s H; simpl; [reflexivity|].
  rewrite (do_move_halted cfg m s H). now apply IH.
Qed.

(** Invariants of the machine hold along every execution. *)
Lemma exec_invariant cfg (P : state -> Prop) :
  (forall s m, P s -> P (do_move cfg m s)) ->
  forall ms s, P s -> P (exec cfg ms s).
Proof.
  intros Hstep ms. induction ms as [|m ms IH]; intros s H; simpl; auto.
Qed.

(** Stage-wise reasoning: [P l] describes the states reached once the main
    thread has consumed the inputs [l], whatever the interrupt line did in
    between. *)
Lemma exec_main_inputs_ind cfg (P : list env_in -> state -> Prop) :
  (forall l s, P l s -> P l (do_move cfg Irq s)) ->
  (forall l s i, P l s -> P (l ++ [i]) (do_move cfg (Go i) s)) ->
  forall ms l s, P l s -> P (l ++ main_inputs ms) (exec cfg ms s).
Proof.
  intros Hirq Hgo ms. induction ms as [|m ms IH]; intros l s H; simpl.
  - now rewrite app_nil_r.
  - destruct m as [|i].
    + apply IH. now apply Hirq.
    + replace (l ++ i :: main_inputs ms) with ((l ++ [i]) ++ main_inputs ms)
        by (rewrite <- app_assoc; reflexivity).
      apply IH. now apply Hgo.
Qed.

(** The callback touches nothing but the flag. *)
Lemma irq_move cfg s :
  do_move cfg Irq s = s \/ do_move cfg Irq s = set_flag true s.
Proof. unfold do_move. destruct (halted s); auto. Qed.

Arguments classify : simpl never.
Arguments at_command_send_receive : simpl never.

(** Unfold one step of the machine at a known line. *)
Ltac run_step :=
  unfold main_step, wifionboarding, empty_event_queue, at_global,
    is_aws_connected, is_wifi_connected, delay_ms, handle_error,
    NVIC_SystemReset, wifionboarding_entry, wifionboarding_return,
    flow_entry in *;
  simpl in *.

Ltac split_ifs :=
  repeat match goal with
         | |- context [if ?b then _ else _] => destruct b
         end.

(** Expose the record behind the state updates. *)
Ltac unfold_state :=
  unfold handle_error, NVIC_SystemReset, delay_ms, set_flag, goto, emit,
    set_result, set_response, set_drain_result;
  simpl.

Lemma do_move_go cfg i s :
  halted s = false -> do_move cfg (Go i) s = main_step cfg i s.
Proof. unfold do_move. now intros ->. Qed.

Lemma do_move_irq cfg s :
  halted s = false -> do_move cfg Irq s = set_flag true s.
Proof. unfold do_move. now intros ->. Qed.

(** Engine outcomes, case by case. *)
Lemma engine_timeout c t e :
  at_command_send_receive c t e None = {| status := FAILURE; body := None |}.
Proof. reflexivity. Qed.

Lemma engine_any c t r :
  at_command_send_receive c t None (Some r)
  = {| status := SUCCESS; body := Some r |}.
Proof. reflexivity. Qed.

Lemma engine_match c t e :
  at_command_send_receive c t (Some e) (Some e)
  = {| status := SUCCESS; body := Some e |}.
Proof.
  unfold at_command_send_receive. now rewrite strcmp_refl.
Qed.

Lemma engine_mismatch c t e r :
  r <> e ->
  at_command_send_receive c t (Some e) (Some r)
  = {| status := FAILURE; body := Some r |}.
Proof.
  intro N. unfold at_command_send_receive.
  destruct (strcmp e r =? 0) eqn:E; [|reflexivity].
  apply Z.eqb_eq, strcmp_zero_eq in E. congruence.
Qed.

Lemma engine_body c t e r :
  body (at_command_send_receive c t e r) = r.
Proof.
  unfold at_command_send_receive.
  destruct r as [r|]; [|reflexivity].
  destruct e as [e|]; [|reflexivity].
  destruct (strcmp e r =? 0); reflexivity.
Qed.

Lemma engine_status_expected c t e r :
  status (at_command_send_receive c t (Some e) r) = SUCCESS <-> r = Some e.
Proof.
  destruct r as [r|].
  - destruct (string_dec r e) as [->|N].
    + rewrite engine_match. simpl. tauto.
    + rewrite engine_mismatch by assumption. simpl. unfold SUCCESS, FAILURE.
      split; [discriminate|]. intro H. congruence.
  - rewrite engine_timeout. simpl. unfold SUCCESS, FAILURE.
    split; discriminate.
Qed.

Lemma engine_status_01 c t e r :
  status (at_command_send_receive c t e r) = 0 \/
  status (at_command_send_receive c t e r) = 1.
Proof.
  unfold at_command_send_receive.
  destruct r as [r|]; [|now left].
  destruct e as [e|]; [|now right].
  destruct (strcmp e r =? 0); [now right|now left].
Qed.

(* ------------------------------------------------------------------------- *)
(** ** The engine contract *)

(** C1.  With an expected reply, a reply equal to it gives success with the
    reply as body, any other reply gives failure with that reply as body, and
    no reply before the timeout gives failure with a null body.  Without an
    expected reply, any reply gives success with its raw text as body. *)
Theorem engine_contract (command : string) (timeout : Z) :
  (forall e r, r = e ->
     at_command_send_receive command timeout (Some e) (Some r)
     = {| status := SUCCESS; body := Some r |}) /\
  (forall e r, r <> e ->
     at_command_send_receive command timeout (Some e) (Some r)
     = {| status := FAILURE; body := Some r |}) /\
  (forall e,
     at_command_send_receive command timeout (Some e) None
     = {| status := FAILURE; body := None |}) /\
  (forall r,
     at_command_send_receive command timeout None (Some r)
     = {| status := SUCCESS; body := Some r |}).
Proof.
  split; [|split; [|split]].
  - intros e r ->. apply engine_match.
  - intros e r N. now apply engine_mismatch.
  - intro e. apply engine_timeout.
  - intro r. apply engine_any.
Qed.

Lemma engine_contract_witness :
  "ERR" <> OK_IDLE /\
  at_command_send_receive AT_EVENT RESPONSE_DELAY (Some OK_IDLE) (Some "ERR")
  = {| status := FAILURE; body := Some "ERR" |}.
Proof.
  split; [discriminate|].
  apply (proj1 (proj2 (engine_contract AT_EVENT RESPONSE_DELAY))).
  discriminate.
Defined.

(* ------------------------------------------------------------------------- *)
(** ** One pass of the event loop *)

(** A pass that starts at the loop head with the flag set, gets [d] from the
    event query and recognises it, up to the end of the dispatch. *)
Lemma pass_stages cfg s d c ms i0 i1 i2 i3 :
  pc s = L168 -> gpio_intr_flag s = true ->
  main_inputs ms = [i0; i1; i2; i3] -> reply i1 = Some d ->
  classify (Some d) = Some c -> c <> Unrecognized ->
  exec cfg ms s = after_dispatch s d c (reply i3).
Proof.
  intros Hpc Hflag Hin Hrep Hcl Hc.
  pose (P := fun (l : list env_in) (s' : state) =>
    match l with
    | [] => s' = s
    | [_] => s' = goto L171 s
    | [_; j1] => reply j1 = Some d ->
        s' = {| pc := L174; gpio_intr_flag := true; result := SUCCESS;
                response := Some d; drain_result := drain_result s;
                trace := trace s ++ [event_query (Some d)] |}
    | [_; j1; _] => reply j1 = Some d ->
        s' = {| pc := dispatch_loc c; gpio_intr_flag := true;
                result := SUCCESS;
                response := Some d; drain_result := drain_result s;
                trace := trace s ++ [event_query (Some d)] |}
    | [_; j1; _; j3] => reply j1 = Some d ->
        s' = after_dispatch s d c (reply j3)
    | _ => True
    end).
  assert (H : P ([] ++ main_inputs ms) (exec cfg ms s)).
  { apply exec_main_inputs_ind.
    - (* the callback leaves every stage where it is *)
      intros l s' HP.
      destruct l as [|a0 [|a1 [|a2 [|a3 [|a4 l]]]]]; simpl in *; auto.
      + subst s'. destruct s; simpl in *; subst. reflexivity.
      + subst s'. destruct s; simpl in *; subst. reflexivity.
      + intro E. rewrite (HP E). reflexivity.
      + intro E. rewrite (HP E). destruct c; reflexivity.
      + intro E. rewrite (HP E). unfold after_dispatch.
        destruct c; reflexivity.
    - (* a main step moves to the next stage *)
      intros l s' i HP.
      destruct l as [|a0 [|a1 [|a2 [|a3 l]]]]; simpl in *; auto.
      + subst s'. destruct s; simpl in *; subst. reflexivity.
      + intro E. subst s'. destruct s; simpl in *; subst.
        unfold do_move, main_step; simpl. rewrite E, engine_any. reflexivity.
      + intro E. rewrite (HP E).
        unfold do_move, main_step; simpl. rewrite Hcl. reflexivity.
      + intro E. rewrite (HP E). unfold after_dispatch.
        destruct c; try congruence;
          unfold do_move, main_step, at_global; simpl; unfold_state;
          rewrite <- app_assoc; reflexivity.
      + destruct l; simpl; auto.
    - reflexivity. }
  rewrite Hin in H. simpl in H. auto.
Qed.

(** From the classification chain to the loop head when nothing matches. *)
Lemma unmatched_pass cfg s d ms i1 i2 :
  pc s = L174 -> response s = Some d -> ~ In d event_patterns ->
  main_inputs ms = [i1] ->
  exec cfg (ms ++ [Go i2]) s
  = {| pc := L168; gpio_intr_flag := false; result := result s;
       response := response s; drain_result := drain_result s;
       trace := trace s |}.
Proof.
  intros Hpc Hresp Hd Hin.
  rewrite exec_snoc.
  pose (P := fun (l : list env_in) (s' : state) =>
    match l with
    | [] => exists b, s' = set_flag b s
    | [_] => exists b, s' = goto L205 (set_flag b s)
    | _ => True
    end).
  assert (H : P ([] ++ main_inputs ms) (exec cfg ms s)).
  { apply exec_main_inputs_ind.
    - intros l s' HP. destruct l as [|a [|a' l]]; simpl in *; auto.
      + destruct HP as [b ->]. exists true.
        destruct s; simpl in *; subst. reflexivity.
      + destruct HP as [b ->]. exists true.
        destruct s; simpl in *; subst. reflexivity.
    - intros l s' i HP. destruct l as [|a [|a' l]]; simpl in *; auto.
      destruct HP as [b ->].
      exists b. destruct s; simpl in *; subst.
      unfold do_move, main_step; simpl.
      rewrite (classify_unmatched d Hd). reflexivity.
    - exists (gpio_intr_flag s). destruct s; reflexivity. }
  rewrite Hin in H. simpl in H. destruct H as [b ->].
  destruct s; simpl in *; subst. reflexivity.
Qed.

Lemma event_patterns_nodup : NoDup event_patterns.
Proof.
  unfold event_patterns.
  repeat (constructor; [simpl; intuition discriminate|]). constructor.
Qed.

(** C3.  The four literals are distinct; a descriptor matches a literal only
    when it is that literal, character for character, so it matches at most
    one; every descriptor has a class, [Unrecognized] exactly when it is none
    of the four; and a pass whose descriptor is none of the four goes from the
    classification chain back to the loop head with no event and no change of
    state but the cleared flag. *)
Theorem event_classification_total_exclusive :
  NoDup event_patterns /\
  (forall p d, strcmp p d = 0 <-> d = p) /\
  (forall d p q, In p event_patterns -> In q event_patterns ->
     strcmp p d = 0 -> strcmp q d = 0 -> p = q) /\
  (forall d, exists c, classify (Some d) = Some c /\
     (c = Unrecognized <-> ~ In d event_patterns)) /\
  (forall cfg s d ms i1 i2,
     pc s = L174 -> response s = Some d -> ~ In d event_patterns ->
     main_inputs ms = [i1] ->
     exec cfg (ms ++ [Go i2]) s
     = {| pc := L168; gpio_intr_flag := false; result := result s;
          response := response s; drain_result := drain_result s;
          trace := trace s |}).
Proof.
  split; [apply event_patterns_nodup|].
  split; [intros p d; rewrite strcmp_eq_iff; split; congruence|].
  split.
  { intros d p q _ _ Hp Hq.
    apply strcmp_zero_eq in Hp, Hq. congruence. }
  split; [|intros; now apply unmatched_pass with (d := d) (i1 := i1)].
  intro d. rewrite classify_some.
  destruct (String.eqb_spec EV_MSG d) as [E|N1].
  { eexists; split; [reflexivity|]. split; [discriminate|].
    intro H; exfalso; apply H; simpl; auto. }
  destruct (String.eqb_spec EV_OTA_OFFERED d) as [E|N2].
  { eexists; split; [reflexivity|]. split; [discriminate|].
    intro H; exfalso; apply H; simpl; auto. }
  destruct (String.eqb_spec EV_OTA_VERIFIED d) as [E|N3].
  { eexists; split; [reflexivity|]. split; [discriminate|].
    intro H; exfalso; apply H; simpl; auto. }
  destruct (String.eqb_spec EV_STARTUP d) as [E|N4].
  { eexists; split; [reflexivity|]. split; [discriminate|].
    intro H; exfalso; apply H; simpl; auto. }
  eexists; split; [reflexivity|]. split; [|reflexivity].
  intros _ [H|[H|[H|[H|[]]]]]; congruence.
Qed.

Lemma event_classification_total_exclusive_witness :
  let quiet := {| reply := None; connected := false |} in
  let s0 := {| pc := L174; gpio_intr_flag := true; result := SUCCESS;
               response := Some OK_IDLE; drain_result := 1; trace := [] |} in
  exec build ([Irq; Go quiet] ++ [Go quiet]) s0
  = {| pc := L168; gpio_intr_flag := false; result := SUCCESS;
       response := Some OK_IDLE; drain_result := 1; trace := [] |}.
Proof.
  intros quiet s0.
  apply (proj2 (proj2 (proj2 (proj2 event_classification_total_exclusive)))
           build s0 OK_IDLE [Irq; Go quiet] quiet quiet).
  - reflexivity.
  - reflexivity.
  - simpl. intuition discriminate.
  - reflexivity.
Defined.

(** Matching is on the whole text: a literal without its line terminator, or
    followed by more text, is not recognised. *)
Example classify_no_prefix :
  classify (Some "OK 1 1 MSG") = Some Unrecognized /\
  classify (Some (EV_MSG ++ "x")%string) = Some Unrecognized /\
  classify (Some EV_MSG) = Some MessageAvailable.
Proof. repeat split. Qed.

(** C4.  A pass whose event query returns ["OK 1 1 MSG\r\n"] issues
    [AT+GET1] once, right after the query, takes no other action, and ends at
    the loop head with the flag cleared. *)
Theorem message_event_pass cfg s ms i0 i1 i2 i3 i4 :
  pc s = L168 -> gpio_intr_flag s = true ->
  main_inputs ms = [i0; i1; i2; i3] -> reply i1 = Some EV_MSG ->
  exec cfg (ms ++ [Go i4]) s
  = {| pc := L168; gpio_intr_flag := false;
       result := status (at_command_send_receive AT_GET1 RESPONSE_DELAY None
                           (reply i3));
       response := Some EV_MSG; drain_result := drain_result s;
       trace := trace s ++ [event_query (Some EV_MSG);
                            EvCmd AT_GET1 RESPONSE_DELAY None (reply i3)] |}.
Proof.
  intros Hpc Hflag Hin Hrep.
  rewrite exec_snoc.
  rewrite (pass_stages cfg s EV_MSG MessageAvailable ms i0 i1 i2 i3)
    by (auto; discriminate).
  reflexivity.
Qed.

Lemma message_event_pass_witness :
  let quiet := {| reply := None; connected := false |} in
  let s0 := {| pc := L168; gpio_intr_flag := true; result := 1;
               response := None; drain_result := 1; trace := [] |} in
  exec build ([Go quiet; Irq; Go {| reply := Some EV_MSG; connected := false |};
               Go quiet; Go {| reply := Some "data"; connected := false |}]
              ++ [Go quiet]) s0
  = {| pc := L168; gpio_intr_flag := false; result := SUCCESS;
       response := Some EV_MSG; drain_result := 1;
       trace := [event_query (Some EV_MSG);
                 EvCmd AT_GET1 RESPONSE_DELAY None (Some "data")] |}.
Proof.
  intros quiet s0.
  apply (message_event_pass build s0 _ quiet
           {| reply := Some EV_MSG; connected := false |} quiet
           {| reply := Some "data"; connected := false |} quiet);
    reflexivity.
Defined.

(** C5.  A pass whose event query returns ["OK 2 0 STARTUP\r\n"] enters the
    host reset right after the query, and nothing happens afterwards: the
    trace ends with the reset, the flag is still set, and no later move changes
    the state. *)
Theorem startup_event_pass cfg s ms ms' i0 i1 i2 i3 :
  pc s = L168 -> gpio_intr_flag s = true ->
  main_inputs ms = [i0; i1; i2; i3] -> reply i1 = Some EV_STARTUP ->
  exec cfg (ms ++ ms') s
  = {| pc := Halted HReset; gpio_intr_flag := true; result := SUCCESS;
       response := Some EV_STARTUP; drain_result := drain_result s;
       trace := trace s ++ [event_query (Some EV_STARTUP); EvReset] |}.
Proof.
  intros Hpc Hflag Hin Hrep.
  rewrite exec_app.
  rewrite (pass_stages cfg s EV_STARTUP Startup ms i0 i1 i2 i3)
    by (auto; discriminate).
  now apply exec_halted.
Qed.

Lemma startup_event_pass_witness :
  let quiet := {| reply := None; connected := false |} in
  let s0 := {| pc := L168; gpio_intr_flag := true; result := 1;
               response := None; drain_result := 1; trace := [] |} in
  exec build ([Go quiet; Go {| reply := Some EV_STARTUP; connected := false |};
               Go quiet; Go quiet]
              ++ [Irq; Go {| reply := Some EV_MSG; connected := false |}]) s0
  = {| pc := Halted HReset; gpio_intr_flag := true; result := SUCCESS;
       response := Some EV_STARTUP; drain_result := 1;
       trace := [event_query (Some EV_STARTUP); EvReset] |}.
Proof.
  intros quiet s0.
  apply (startup_event_pass build s0 _ _ quiet
           {| reply := Some EV_STARTUP; connected := false |} quiet quiet);
    reflexivity.
Defined.

(* ------------------------------------------------------------------------- *)
(** ** Wi-Fi onboarding with direct credentials *)

(** C9 (as amended).  With [CIRRENT_APP_ONBOARDING] off, [wifionboarding]
    sends the SSID command and then the passphrase command, each with no
    expected reply ([NULL]), so that whatever the module answers to the
    passphrase command is what [result] records; it then returns, and the next
    thing the flow does is the connect command: no Wi-Fi status query and no
    delay follow. *)
Theorem direct_credentials_onboarding cfg s ms i1 i2 i3 :
  CIRRENT_APP_ONBOARDING cfg = false ->
  pc s = wifionboarding_entry cfg ->
  main_inputs ms = [i1] ->
  let s2 := exec cfg (ms ++ [Go i2]) s in
  let s3 := exec cfg (ms ++ [Go i2; Go i3]) s in
  pc s2 = wifionboarding_return cfg /\
  trace s2 = trace s ++ [EvCmd SET_SSID RESPONSE_DELAY None (reply i1);
                         EvCmd SET_PASSPHRASE RESPONSE_DELAY None (reply i2)] /\
  result s2 = status (at_command_send_receive SET_PASSPHRASE RESPONSE_DELAY
                        None (reply i2)) /\
  trace s3 = trace s2 ++
             [EvCmd AT_CONNECT RESPONSE_DELAY
                (if AWS_FLOW cfg then Some OK_CONNECTED else None) (reply i3)].
Proof.
  intros Hcfg Hpc Hin.
  unfold wifionboarding_entry in Hpc. rewrite Hcfg in Hpc.
  pose (P := fun (l : list env_in) (s' : state) =>
    match l with
    | [] => exists b, s' = set_flag b s
    | [j] => exists b, s' = set_flag b (at_global j SET_SSID None W242 s)
    | _ => True
    end).
  assert (H : P ([] ++ main_inputs ms) (exec cfg ms s)).
  { apply exec_main_inputs_ind.
    - intros l s' HP. destruct l as [|a [|a' l]]; simpl in *; auto.
      + destruct HP as [b ->]. exists true.
        destruct s; simpl in *; subst. reflexivity.
      + destruct HP as [b ->]. exists true.
        destruct s; simpl in *; subst. reflexivity.
    - intros l s' i HP. destruct l as [|a [|a' l]]; simpl in *; auto.
      destruct HP as [b ->].
      exists b. destruct s; simpl in *; subst. reflexivity.
    - exists (gpio_intr_flag s). destruct s; reflexivity. }
  rewrite Hin in H. simpl in H. destruct H as [b H].
  replace (ms ++ [Go i2; Go i3]) with ((ms ++ [Go i2]) ++ [Go i3])
    by (rewrite <- app_assoc; reflexivity).
  cbv zeta. rewrite (exec_snoc cfg (ms ++ [Go i2])), (exec_snoc cfg ms), H.
  destruct s as [p f r resp dr t]; simpl in *; subst p.
  unfold do_move, main_step, wifionboarding, wifionboarding_return; simpl.
  destruct (AWS_FLOW cfg); simpl;
    (split; [reflexivity|]); (split; [now rewrite <- app_assoc|]);
    (split; reflexivity).
Qed.

Lemma direct_credentials_onboarding_witness :
  let quiet := {| reply := None; connected := false |} in
  let ok := {| reply := Some OK_IDLE; connected := false |} in
  let s0 := {| pc := W239; gpio_intr_flag := false; result := 0;
               response := None; drain_result := 0; trace := [] |} in
  trace (exec build ([Irq; Go ok] ++ [Go quiet]) s0)
  = [EvCmd SET_SSID RESPONSE_DELAY None (Some OK_IDLE);
     EvCmd SET_PASSPHRASE RESPONSE_DELAY None None].
Proof.
  intros quiet ok s0.
  apply (direct_credentials_onboarding build s0 [Irq; Go ok] ok quiet quiet);
    reflexivity.
Defined.

(** C9 as stated fails: in the run below the module is not yet associated,
    answers the SSID command with an error text and the passphrase command not
    at all.  Neither exchange carries an expected reply, the SSID exchange is
    recorded as a success all the same, and the flow goes on to the connect
    command. *)
Lemma direct_credentials_counterexample :
  let down := {| reply := Some OK_IDLE; connected := false |} in
  let err := {| reply := Some "ERR"; connected := false |} in
  let quiet := {| reply := None; connected := false |} in
  let after_ssid := exec build [Go down; Go down; Go down; Go err] (init build) in
  let after_pass := exec build [Go quiet] after_ssid in
  trace after_pass
  = [EvIsAws false;
     EvCmd SET_ENDPOINT RESPONSE_DELAY None (Some OK_IDLE);
     EvIsWifi false;
     EvCmd SET_SSID RESPONSE_DELAY None (Some "ERR");
     EvCmd SET_PASSPHRASE RESPONSE_DELAY None None] /\
  expected_of (nth 3 (trace after_pass) EvReset) = None /\
  expected_of (nth 4 (trace after_pass) EvReset) = None /\
  result after_ssid = SUCCESS /\
  pc after_pass = L122.
Proof. repeat split. Qed.

(* ------------------------------------------------------------------------- *)
(** ** The classification chain and a null response *)

Lemma classify_defined (d : string) : classify (Some d) <> None.
Proof. rewrite classify_some. discriminate. Qed.

Lemma dispatch_loc_running (c : EventClassification) (h : halt_reason) :
  dispatch_loc c <> Halted h.
Proof. destruct c; discriminate. Qed.

(** The state two main steps after line 171: the classification of what the
    event query returned. *)
Lemma query_then_classify cfg s ms i0 i1 :
  pc s = L171 -> main_inputs ms = [i0] ->
  pc (exec cfg (ms ++ [Go i1]) s)
  = match classify (reply i0) with
    | None => Halted HUndefined
    | Some c => dispatch_loc c
    end.
Proof.
  intros Hpc Hin.
  pose (P := fun (l : list env_in) (s' : state) =>
    match l with
    | [] => exists b, s' = set_flag b s
    | [j] => exists b, s' = set_flag b (main_step cfg j s)
    | _ => True
    end).
  assert (H : P ([] ++ main_inputs ms) (exec cfg ms s)).
  { apply exec_main_inputs_ind.
    - intros l s' HP. destruct l as [|a [|a' l]]; simpl in *; auto.
      + destruct HP as [b ->]. exists true.
        destruct s; simpl in *; subst. reflexivity.
      + destruct HP as [b ->]. exists true.
        destruct s; simpl in *; subst. reflexivity.
    - intros l s' i HP. destruct l as [|a [|a' l]]; simpl in *; auto.
      destruct HP as [b ->].
      exists b. destruct s; simpl in *; subst. reflexivity.
    - exists (gpio_intr_flag s). destruct s; reflexivity. }
  rewrite Hin in H. simpl in H. destruct H as [b H].
  rewrite exec_snoc, H.
  destruct s as [p f r resp dr t]; simpl in *; subst p.
  unfold do_move, main_step; simpl. rewrite engine_body.
  destruct (classify (reply i0)); reflexivity.
Qed.

(** C10.  The chain of lines 174-198 hands [response] to [strcmp] unchecked:
    it is defined on every text and undefined on [NULL].  Starting at the
    event query, the main thread ends in the undefined comparison exactly when
    the query got no reply (the engine then returns a null body), and such a
    run exists from the initial state. *)
Theorem classification_needs_reply :
  classify None = None /\
  (forall d, classify (Some d) <> None) /\
  (forall cfg s ms i0 i1,
     pc s = L171 -> main_inputs ms = [i0] ->
     (pc (exec cfg (ms ++ [Go i1]) s) = Halted HUndefined
      <-> reply i0 = None)) /\
  (exists ms, pc (exec build ms (init build)) = Halted HUndefined).
Proof.
  split; [reflexivity|].
  split; [apply classify_defined|].
  split.
  - intros cfg s ms i0 i1 Hpc Hin.
    rewrite (query_then_classify cfg s ms i0 i1 Hpc Hin).
    destruct (reply i0) as [d|].
    + destruct (classify (Some d)) as [c|] eqn:E.
      * split; [|discriminate]. intro H. now apply dispatch_loc_running in H.
      * now apply classify_defined in E.
    + split; reflexivity.
  - exists [Go {| reply := Some OK_IDLE; connected := true |};
            Go {| reply := Some OK_IDLE; connected := true |};
            Go {| reply := Some OK_IDLE; connected := true |};
            Go {| reply := Some OK_IDLE; connected := true |};
            Go {| reply := Some OK_IDLE; connected := true |};
            Go {| reply := Some OK_IDLE; connected := true |};
            Go {| reply := Some OK_IDLE; connected := true |};
            Irq;
            Go {| reply := None; connected := true |};
            Go {| reply := None; connected := true |};
            Go {| reply := None; connected := true |}].
    reflexivity.
Qed.

Lemma classification_needs_reply_witness :
  let timeout := {| reply := None; connected := false |} in
  let s0 := {| pc := L171; gpio_intr_flag := true; result := 1;
               response := None; drain_result := 1; trace := [] |} in
  pc (exec build ([Irq; Go timeout] ++ [Go timeout]) s0) = Halted HUndefined.
Proof.
  intros timeout s0.
  apply (proj1 (proj2 (proj2 classification_needs_reply))
           build s0 [Irq; Go timeout] timeout timeout);
    reflexivity.
Defined.

(* ------------------------------------------------------------------------- *)
(** ** The drain loop of [empty_event_queue] *)

Lemma run_stream_add cfg r base (n m : nat) : forall s,
  run_stream cfg r base (n + m) s
  = run_stream cfg r base m (run_stream cfg r base n s).
Proof.
  induction n as [|n IH]; intro s; simpl; [reflexivity|]. apply IH.
Qed.

Lemma drain_status_failure (r : option string) :
  r <> Some OK_IDLE ->
  status (at_command_send_receive AT_EVENT RESPONSE_DELAY (Some OK_IDLE) r) = 0.
Proof.
  intro N.
  destruct (engine_status_01 AT_EVENT RESPONSE_DELAY (Some OK_IDLE) r)
    as [H|H]; [exact H|].
  now apply engine_status_expected in H.
Qed.

(** The replies to the first [k] queries of the drain, as exchanges. *)
Lemma drain_queries_snoc (r : nat -> option string) (k : nat) :
  map (fun j => drain_query (r j)) (seq 0 (S k))
  = map (fun j => drain_query (r j)) (seq 0 k) ++ [drain_query (r k)].
Proof. now rewrite seq_S, map_app. Qed.

(** One iteration of the loop: the test of line 256 and the query of
    line 258. *)
Lemma drain_iteration cfg r base s :
  pc s = D256 -> drain_result s = 0 ->
  run_stream cfg r base 2 s
  = {| pc := D256; gpio_intr_flag := gpio_intr_flag s; result := result s;
       response := response s;
       drain_result :=
         status (at_command_send_receive AT_EVENT RESPONSE_DELAY
                   (Some OK_IDLE) (r (List.length (trace s) - base)%nat));
       trace := trace s
                ++ [drain_query (r (List.length (trace s) - base)%nat)] |}.
Proof.
  intros Hpc Hres. destruct s as [p f rs resp dr t]; simpl in *; subst.
  reflexivity.
Qed.

(** The test of line 256 once [result] is set. *)
Lemma drain_exit cfg r base s :
  pc s = D256 -> drain_result s = SUCCESS ->
  run_stream cfg r base 1 s = goto L168 s.
Proof.
  intros Hpc Hres. destruct s as [p f rs resp dr t]; simpl in *; subst.
  reflexivity.
Qed.

Lemma stream_index (t l : list event) :
  (List.length (t ++ l) - List.length t)%nat = List.length l.
Proof. rewrite length_app. lia. Qed.

(** As long as the module has not answered the idle literal, the loop is back
    at its test with [result] zero, one query per iteration. *)
Lemma drain_iterations cfg r s (k : nat) :
  pc s = D254 ->
  (forall j, (j < k)%nat -> r j <> Some OK_IDLE) ->
  run_stream cfg r (List.length (trace s)) (1 + 2 * k) s
  = {| pc := D256; gpio_intr_flag := gpio_intr_flag s; result := result s;
       response := response s; drain_result := 0;
       trace := trace s ++ map (fun j => drain_query (r j)) (seq 0 k) |}.
Proof.
  intros Hpc. induction k as [|k IH]; intro Hr.
  - destruct s; simpl in *; subst. unfold do_move; simpl.
    now rewrite app_nil_r.
  - replace (1 + 2 * S k)%nat with ((1 + 2 * k) + 2)%nat by lia.
    rewrite run_stream_add, IH by (intros j Hj; apply Hr; lia).
    rewrite drain_iteration by reflexivity.
    cbn [trace gpio_intr_flag result response].
    rewrite stream_index, length_map, length_seq.
    rewrite drain_status_failure by (apply Hr; lia).
    now rewrite drain_queries_snoc, app_assoc.
Qed.

(** The iteration in which the idle literal arrives is the last one. *)
Lemma drain_completes cfg r s (k : nat) :
  pc s = D254 ->
  (forall j, (j < k)%nat -> r j <> Some OK_IDLE) ->
  r k = Some OK_IDLE ->
  run_stream cfg r (List.length (trace s)) (2 * k + 4) s
  = {| pc := L168; gpio_intr_flag := gpio_intr_flag s; result := result s;
       response := response s; drain_result := SUCCESS;
       trace := trace s ++ map (fun j => drain_query (r j)) (seq 0 (S k)) |}.
Proof.
  intros Hpc Hr Hk.
  replace (2 * k + 4)%nat with (((1 + 2 * k) + 2) + 1)%nat by lia.
  do 2 rewrite run_stream_add. rewrite drain_iterations by assumption.
  rewrite drain_iteration by reflexivity.
  cbn [trace gpio_intr_flag result response].
  rewrite stream_index, length_map, length_seq, Hk, engine_match.
  cbn [status].
  rewrite drain_exit by reflexivity.
  now rewrite drain_queries_snoc, app_assoc, Hk.
Qed.

Lemma first_idle_reply (r : nat -> option string) (k : nat) :
  r k = Some OK_IDLE ->
  exists k', r k' = Some OK_IDLE /\
             forall j, (j < k')%nat -> r j <> Some OK_IDLE.
Proof.
  induction k as [k IH] using lt_wf_ind. intro Hk.
  assert (D : (exists j, (j < k)%nat /\ r j = Some OK_IDLE) \/
              (forall j, (j < k)%nat -> r j <> Some OK_IDLE)).
  { clear. induction k as [|k [[j [Hj E]]|N]].
    - right. intros j Hj. lia.
    - left. exists j. split; [lia|exact E].
    - destruct (r k) as [t|] eqn:E.
      + destruct (string_dec t OK_IDLE) as [->|Nt].
        * left. exists k. split; [lia|exact E].
        * right. intros j Hj.
          destruct (Nat.eq_dec j k) as [->|Nj];
            [rewrite E; congruence | apply N; lia].
      + right. intros j Hj.
        destruct (Nat.eq_dec j k) as [->|Nj];
          [rewrite E; discriminate | apply N; lia]. }
  destruct D as [[j [Hj E]]|N].
  - now apply (IH j).
  - exists k. split; assumption.
Qed.

(** The loop is left only through a query answered with the idle literal. *)
Lemma drain_exit_needs_idle cfg r base (n : nat) : forall s,
  (exists k, r k = Some OK_IDLE) \/
  (pc s = D254 \/ pc s = D258 \/ (pc s = D256 /\ drain_result s = 0)) ->
  pc (run_stream cfg r base n s) = L168 ->
  exists k, r k = Some OK_IDLE.
Proof.
  induction n as [|n IH]; intros s Q H; simpl in H.
  - destruct Q as [Q|[Q|[Q|[Q _]]]]; [exact Q| congruence ..].
  - apply IH in H; [exact H|].
    destruct Q as [Q|Q]; [now left|].
    destruct s as [p f rs resp dr t]; simpl in *.
    destruct Q as [->|[->|[-> ->]]]; unfold do_move; simpl.
    + right. right. right. split; reflexivity.
    + unfold stream_input; simpl.
      destruct (engine_status_01 AT_EVENT RESPONSE_DELAY (Some OK_IDLE)
                  (r (List.length t - base)%nat)) as [E|E].
      * right. right. right. split; [reflexivity|exact E].
      * left. apply engine_status_expected in E. eauto.
    + right. right. left. reflexivity.
Qed.

(** A move only ever appends to the trace. *)
Lemma trace_extends cfg m s :
  exists l, trace (do_move cfg m s) = trace s ++ l.
Proof.
  unfold do_move. destruct (halted s); [exists []; now rewrite app_nil_r|].
  destruct m as [|i]; [exists []; simpl; now rewrite app_nil_r|].
  destruct s as [p f r resp dr t].
  destruct p; run_step; try destruct (classify resp);
    try destruct (connected i); simpl; split_ifs; simpl;
    solve [exists []; now rewrite app_nil_r | eexists; reflexivity].
Qed.

(** The loop is left only through a query answered with the idle literal,
    whatever the interrupt line does meanwhile. *)
Lemma drain_exit_needs_idle_any cfg s0 ms :
  pc s0 = D254 ->
  exists l,
    trace (exec cfg ms s0) = trace s0 ++ l /\
    (In (drain_query (Some OK_IDLE)) l \/
     pc (exec cfg ms s0) = D254 \/ pc (exec cfg ms s0) = D258 \/
     (pc (exec cfg ms s0) = D256 /\ drain_result (exec cfg ms s0) = 0)).
Proof.
  intro Hpc.
  apply (exec_invariant cfg (fun s =>
    exists l,
      trace s = trace s0 ++ l /\
      (In (drain_query (Some OK_IDLE)) l \/
       pc s = D254 \/ pc s = D258 \/ (pc s = D256 /\ drain_result s = 0)))).
  - intros s m [l [Ht [Hin|Hd]]].
    + destruct (trace_extends cfg m s) as [l' E].
      exists (l ++ l'). rewrite E, Ht, app_assoc. split; [reflexivity|].
      left. apply in_or_app. now left.
    + unfold do_move. 
      assert (Hh : halted s = false)
        by (unfold halted; destruct Hd as [->|[->|[-> _]]]; reflexivity).
      rewrite Hh.
      destruct m as [|i];
        [exists l; split; [exact Ht|right; exact Hd]|].
      destruct s as [p f r resp dr t]; simpl in *.
      destruct Hd as [->|[->|[-> ->]]]; run_step.
      * exists l. split; [exact Ht|]. right. right. right. split; reflexivity.
      * exists (l ++ [drain_query (reply i)]).
        split; [rewrite Ht, app_assoc; reflexivity|].
        destruct (engine_status_01 AT_EVENT RESPONSE_DELAY (Some OK_IDLE)
                    (reply i)) as [E|E].
        -- right. right. right. split; [reflexivity|exact E].
        -- left. apply engine_status_expected in E. rewrite E.
           apply in_or_app. right. now left.
      * exists l. split; [exact Ht|]. right. right. left. reflexivity.
  - exists []. split; [now rewrite app_nil_r|]. right. now left.
Qed.

(** C7.  Entered at line 254 against a module that answers the k-th event
    query with [r k], the drain loop returns to the event loop exactly when
    some [r k] is the idle literal ["OK\r\n"]; in any execution, interrupts
    included, the event loop is reached only after a drain query was answered
    with that literal; if the first answer is the idle literal the loop
    returns after one query, and in general after one query more than the
    number of answers that came before the first idle literal. *)
Theorem drain_terminates_iff cfg (r : nat -> option string) s :
  pc s = D254 ->
  ((exists n, pc (run_stream cfg r (List.length (trace s)) n s) = L168)
   <-> (exists k, r k = Some OK_IDLE)) /\
  (forall ms, pc (exec cfg ms s) = L168 ->
     exists l, trace (exec cfg ms s) = trace s ++ l /\
               In (drain_query (Some OK_IDLE)) l) /\
  (r 0%nat = Some OK_IDLE ->
   run_stream cfg r (List.length (trace s)) 4 s
   = {| pc := L168; gpio_intr_flag := gpio_intr_flag s; result := result s;
        response := response s; drain_result := SUCCESS;
        trace := trace s ++ [drain_query (Some OK_IDLE)] |}) /\
  (forall k, r k = Some OK_IDLE ->
     (forall j, (j < k)%nat -> r j <> Some OK_IDLE) ->
     run_stream cfg r (List.length (trace s)) (2 * k + 4) s
     = {| pc := L168; gpio_intr_flag := gpio_intr_flag s; result := result s;
          response := response s; drain_result := SUCCESS;
          trace := trace s
                   ++ map (fun j => drain_query (r j)) (seq 0 (S k)) |}).
Proof.
  intro Hpc. split; [split|split; [|split]].
  - intros [n H].
    apply (drain_exit_needs_idle cfg r (List.length (trace s)) n s); auto.
  - intros [k Hk]. apply first_idle_reply in Hk. destruct Hk as [k' [Hk' Hlt]].
    exists (2 * k' + 4)%nat. now rewrite drain_completes.
  - intros ms H.
    destruct (drain_exit_needs_idle_any cfg s ms Hpc)
      as [l [Ht [Hin|[E|[E|[E _]]]]]]; try congruence.
    exists l. auto.
  - intro H0.
    assert (N : forall j, (j < 0)%nat -> r j <> Some OK_IDLE)
      by (intros j Hj; lia).
    pose proof (drain_completes cfg r s 0%nat Hpc N H0) as E.
    change (2 * 0 + 4)%nat with 4%nat in E. rewrite E.
    simpl. now rewrite H0.
  - intros k Hk Hlt. now apply drain_completes.
Qed.

Lemma drain_terminates_iff_witness :
  let s0 := {| pc := D254; gpio_intr_flag := false; result := 1;
               response := None; drain_result := 0; trace := [] |} in
  let r := fun k : nat =>
             match k with
             | O => Some EV_MSG
             | 1%nat => None
             | _ => Some OK_IDLE
             end in
  run_stream build r 0 (2 * 2 + 4) s0
  = {| pc := L168; gpio_intr_flag := false; result := 1;
       response := None; drain_result := SUCCESS;
       trace := [drain_query (Some EV_MSG); drain_query None;
                 drain_query (Some OK_IDLE)] |}.
Proof.
  intros s0 r.
  apply (proj2 (proj2 (proj2 (drain_terminates_iff build r s0 eq_refl)))
           2%nat).
  - reflexivity.
  - intros j Hj. destruct j as [|[|j]]; simpl; [discriminate|discriminate|lia].
Defined.

(* ------------------------------------------------------------------------- *)
(** ** The interrupt flag *)

Lemma loc_eq_dec (a b : loc) : {a = b} + {a <> b}.
Proof. decide equality. decide equality. Defined.

Lemma pass_inv_dispatch i f r dr t pre d c cmd :
  classify (Some d) = Some c -> dispatch_command c = Some cmd ->
  t = pre ++ [event_query (Some d)] ->
  pass_completed
    (at_global i cmd None L205
       {| pc := dispatch_loc c; gpio_intr_flag := f; result := r;
          response := Some d; drain_result := dr; trace := t |}).
Proof.
  intros Hc Hcmd ->. exists pre, d, c. simpl.
  repeat split; auto.
  - intros ->. discriminate.
  - rewrite Hcmd. exists (reply i). now rewrite <- app_assoc.
Qed.

Lemma pass_inv_step cfg s m : pass_inv s -> pass_inv (do_move cfg m s).
Proof.
  intro H. unfold do_move. destruct (halted s) eqn:Hh; [exact H|].
  destruct m as [|i].
  - destruct s as [p f r resp dr t]. destruct p; exact H.
  - destruct s as [p f r resp dr t].
    destruct p;
      try (unfold pass_inv in *; run_step; split_ifs; simpl; auto; fail).
    + (* line 171 *)
      unfold pass_inv; run_step. exists t. now rewrite engine_body.
    + (* line 174 *)
      unfold pass_inv in H; simpl in H. destruct H as [pre ->].
      unfold main_step; simpl.
      destruct resp as [d|]; [|exact I].
      destruct (classify (Some d)) as [c|] eqn:E; [|exact I].
      destruct c; unfold pass_inv; simpl;
        try (exists pre, d; eexists; repeat split; eauto; fail).
      exists pre, d, Unrecognized. repeat split; auto. discriminate.
    + (* line 178 *)
      unfold pass_inv in H; simpl in H.
      destruct H as [pre [d [c [-> [Hc [Hl ->]]]]]].
      destruct c; try discriminate.
      apply (pass_inv_dispatch i f r dr _ pre d MessageAvailable); auto.
    + (* line 186 *)
      unfold pass_inv in H; simpl in H.
      destruct H as [pre [d [c [-> [Hc [Hl ->]]]]]].
      destruct c; try discriminate.
      apply (pass_inv_dispatch i f r dr _ pre d OtaOffered); auto.
    + (* line 194 *)
      unfold pass_inv in H; simpl in H.
      destruct H as [pre [d [c [-> [Hc [Hl ->]]]]]].
      destruct c; try discriminate.
      apply (pass_inv_dispatch i f r dr _ pre d OtaVerified); auto.
Qed.

Lemma pass_inv_init cfg : pass_inv (init cfg).
Proof.
  unfold pass_inv, init, main_entry, flow_entry. simpl.
  destruct (MODIFY_SSID_AFTER_CONNECTED cfg), (AWS_FLOW cfg); exact I.
Qed.

(** Line 205 is the only line of the main thread that writes the flag. *)
Lemma main_step_flag cfg i s :
  pc s <> L205 -> gpio_intr_flag (main_step cfg i s) = gpio_intr_flag s.
Proof.
  intro N. destruct s as [p f r resp dr t].
  destruct p; run_step; try congruence;
    try destruct (classify resp); split_ifs; reflexivity.
Qed.

(** C8.  Along every execution, a move that takes the flag from false to true
    is a run of the interrupt callback, and a move that takes it from true to
    false is the step of the main thread at line 205, taken in a state whose
    pass has gone through the event query and the classification chain; the
    callback never clears the flag and the main thread never sets it. *)
Theorem interrupt_flag_transitions cfg ms m :
  let s := exec cfg ms (init cfg) in
  let s' := do_move cfg m s in
  (gpio_intr_flag s = false -> gpio_intr_flag s' = true ->
     m = Irq /\ s' = gpio_interrupt_handler s) /\
  (gpio_intr_flag s = true -> gpio_intr_flag s' = false ->
     (exists i, m = Go i) /\ pc s = L205 /\ pass_completed s /\
     s' = goto L168 (set_flag false s)).
Proof.
  intros s s'.
  assert (Inv : pass_inv s)
    by (apply exec_invariant; [intros; now apply pass_inv_step
                              | apply pass_inv_init]).
  subst s'. clearbody s. unfold do_move.
  destruct (halted s) eqn:Hh; [split; congruence|].
  destruct m as [|i].
  - split; [auto|]. simpl. discriminate.
  - destruct (loc_eq_dec (pc s) L205) as [E|N].
    + split.
      * intros H1 H2. exfalso. revert H2.
        unfold main_step. rewrite E. simpl. discriminate.
      * intros _ _. split; [eauto|]. split; [exact E|].
        unfold pass_inv in Inv. rewrite E in Inv. split; [exact Inv|].
        unfold main_step. now rewrite E.
    + rewrite (main_step_flag cfg i s N). split; congruence.
Qed.

Lemma interrupt_flag_transitions_witness :
  let up := {| reply := Some OK_IDLE; connected := true |} in
  let ms := [Go up; Go up; Go up; Go up; Go up; Go up; Go up;
             Irq; Go up; Go up; Go up] in
  pc (exec build ms (init build)) = L205 /\
  do_move build (Go up) (exec build ms (init build))
  = goto L168 (set_flag false (exec build ms (init build))).
Proof.
  intros up ms.
  destruct (proj2 (interrupt_flag_transitions build ms (Go up))
              eq_refl eq_refl) as [_ [Hpc [_ Hs]]].
  split; [exact Hpc|exact Hs].
Defined.

(* ------------------------------------------------------------------------- *)
(** ** The cloud-connect step and the fatal error path *)

Lemma no_fatal_snoc t e : no_fatal t -> e <> EvHandleError -> no_fatal (t ++ [e]).
Proof.
  intros H N I. apply in_app_or in I. destruct I as [I|[I|[]]]; auto.
Qed.

Lemma no_connect_snoc t e :
  no_connect t -> (forall r, e <> connect_exchange r) -> no_connect (t ++ [e]).
Proof.
  intros H N r I. apply in_app_or in I. destruct I as [I|[I|[]]].
  - now apply (H r).
  - now apply (N r).
Qed.

Lemma connects_ok_snoc t e :
  connects_ok t -> (forall r, e = connect_exchange r -> r = Some OK_CONNECTED) ->
  connects_ok (t ++ [e]).
Proof.
  intros H N r I. apply in_app_or in I. destruct I as [I|[I|[]]]; auto.
Qed.

Lemma no_connect_ok t : no_connect t -> connects_ok t.
Proof. intros H r I. now apply H in I. Qed.

Ltac ev_neq :=
  unfold connect_exchange;
  let H := fresh in
  intros; intro H; try discriminate H;
  inversion H; vm_compute in *; discriminate.

Lemma before_emit t e :
  no_fatal t /\ no_connect t -> e <> EvHandleError ->
  (forall r, e <> connect_exchange r) ->
  no_fatal (t ++ [e]) /\ no_connect (t ++ [e]).
Proof. intros [A B] N1 N2. split; [now apply no_fatal_snoc|now apply no_connect_snoc]. Qed.

Lemma past_emit t e :
  no_fatal t /\ connects_ok t -> e <> EvHandleError ->
  (forall r, e <> connect_exchange r) ->
  no_fatal (t ++ [e]) /\ connects_ok (t ++ [e]).
Proof.
  intros [A B] N1 N2. split; [now apply no_fatal_snoc|].
  apply connects_ok_snoc; [exact B|]. intros r E. now apply N2 in E.
Qed.

Lemma fatal_inv_step cfg s m :
  AWS_FLOW cfg = true -> fatal_inv s -> fatal_inv (do_move cfg m s).
Proof.
  intros Hcfg H. unfold do_move. destruct (halted s) eqn:Hh; [exact H|].
  destruct m as [|i]; [exact H|].
  destruct s as [p f r resp dr t]. unfold fatal_inv in *. simpl in *.
  destruct H as [[Hp H]|[[pre [r0 [Hf [Hc [-> H]]]]]
                        |[[pre [r0 [Hf [Hc [-> [-> _]]]]]]|[Hp H]]]].
  - (* before the connect command *)
    destruct p; try discriminate Hp; run_step; rewrite ?Hcfg; split_ifs; simpl.
    all: try (left; split; [reflexivity|]; apply before_emit; auto;
              try discriminate; ev_neq).
    all: try (right; right; right; split; [reflexivity|];
              apply past_emit; auto; try discriminate; try ev_neq;
              destruct H; split; auto using no_connect_ok).
    (* line 122 *)
    right; left. exists t, (reply i). destruct H as [H1 H2].
    repeat split; auto. left. split; [reflexivity|].
    apply engine_status_expected.
  - (* between the connect command and the call of handle_error *)
    destruct H as [[-> Hr]|[-> Hr]]; unfold main_step; simpl.
    + destruct (r =? SUCCESS) eqn:E; simpl.
      * apply Z.eqb_eq in E. apply Hr in E. subst r0.
        right; right; right. split; [reflexivity|]. split.
        -- apply no_fatal_snoc; [exact Hf|discriminate].
        -- apply connects_ok_snoc; [now apply no_connect_ok|].
           unfold connect_exchange. intros r' Er. now inversion Er.
      * apply Z.eqb_neq in E.
        right; left. exists pre, r0. repeat split; auto.
        right. split; [reflexivity|]. intro Er. apply E. now apply Hr.
    + right; right; left. exists pre, r0. repeat split; auto.
      now rewrite <- app_assoc.
  - discriminate.
  - (* past the connect check *)
    destruct p; try discriminate Hp; try discriminate Hh; run_step;
      try destruct (classify resp) as [[]|]; split_ifs; simpl.
    all: right; right; right; split; [reflexivity|]; auto.
    all: apply past_emit; auto; try discriminate; ev_neq.
Qed.

Lemma fatal_inv_init cfg : AWS_FLOW cfg = true -> fatal_inv (init cfg).
Proof.
  intro Hcfg. left. unfold init, main_entry, flow_entry. simpl. rewrite Hcfg.
  split; [destruct (MODIFY_SSID_AFTER_CONNECTED cfg); reflexivity|].
  split; [intros []|intros r []].
Qed.

Lemma fatal_shape s :
  fatal_inv s -> In EvHandleError (trace s) ->
  exists pre r,
    trace s = pre ++ [connect_exchange r; EvHandleError] /\
    r <> Some OK_CONNECTED /\ no_fatal pre /\ no_connect pre.
Proof.
  intros [[_ [H _]]|[[pre [r [Hf [_ [E _]]]]]
                    |[[pre [r [Hf [Hc [E [_ Hr]]]]]]|[_ [H _]]]]] I.
  - now apply H in I.
  - rewrite E in I. apply in_app_or in I. destruct I as [I|[I|[]]].
    + now apply Hf in I.
    + discriminate I.
  - exists pre, r. auto.
  - now apply H in I.
Qed.

Lemma failed_connect_shape s r :
  fatal_inv s -> In (connect_exchange r) (trace s) ->
  r <> Some OK_CONNECTED ->
  exists pre,
    no_fatal pre /\ no_connect pre /\
    (trace s = pre ++ [connect_exchange r] \/
     trace s = pre ++ [connect_exchange r; EvHandleError]).
Proof.
  intros [[_ [_ H]]|[[pre [r0 [Hf [Hc [E _]]]]]
                    |[[pre [r0 [Hf [Hc [E _]]]]]|[_ [_ H]]]]] I N.
  - now apply H in I.
  - rewrite E in I. apply in_app_or in I. destruct I as [I|[I|[]]].
    + now apply Hc in I.
    + inversion I; subst. exists pre. auto.
  - rewrite E in I. apply in_app_or in I. destruct I as [I|[I|[I|[]]]].
    + now apply Hc in I.
    + inversion I; subst. exists pre. auto.
    + discriminate I.
  - apply H in I. contradiction.
Qed.

Lemma go_set_flag cfg i b s :
  flag_blind (pc s) = true ->
  do_move cfg (Go i) (set_flag b s) = set_flag b (main_step cfg i s).
Proof.
  intros Hl. destruct s as [p f r resp dr t]. simpl in *.
  destruct p; try discriminate Hl; unfold do_move; run_step;
    try destruct (classify resp); split_ifs; reflexivity.
Qed.

Lemma irq_set_flag cfg b s :
  exists b', do_move cfg Irq (set_flag b s) = set_flag b' s.
Proof.
  unfold do_move. destruct (halted (set_flag b s)); [now exists b|].
  exists true. destruct s; reflexivity.
Qed.

Lemma connect_path cfg s ms i1 i2 i3 :
  pc s = L122 -> main_inputs ms = [i1; i2; i3] ->
  exists b,
    exec cfg ms s
    = set_flag b (main_step cfg i3 (main_step cfg i2 (main_step cfg i1 s))).
Proof.
  intros Hpc Hin.
  pose (P := fun (l : list env_in) (s' : state) =>
    match l with
    | [] => exists b, s' = set_flag b s
    | [j1] => exists b, s' = set_flag b (main_step cfg j1 s)
    | [j1; j2] =>
        exists b, s' = set_flag b (main_step cfg j2 (main_step cfg j1 s))
    | [j1; j2; j3] =>
        exists b, s' = set_flag b
                         (main_step cfg j3
                            (main_step cfg j2 (main_step cfg j1 s)))
    | _ => True
    end).
  assert (H : P ([] ++ main_inputs ms) (exec cfg ms s)).
  { apply exec_main_inputs_ind.
    - intros l s' HP.
      destruct l as [|a0 [|a1 [|a2 [|a3 l]]]]; simpl in *; auto;
        destruct HP as [b ->]; apply irq_set_flag.
    - intros l s' i HP.
      destruct l as [|a0 [|a1 [|a2 l]]]; simpl in *; auto.
      + destruct HP as [b ->]. exists b. apply go_set_flag. now rewrite Hpc.
      + destruct HP as [b ->]. exists b. apply go_set_flag.
        unfold main_step. now rewrite Hpc.
      + destruct HP as [b ->]. exists b. apply go_set_flag.
        unfold main_step at 2. rewrite Hpc.
        unfold main_step, at_global. simpl.
        destruct (negb _); reflexivity.
      + destruct l; simpl; auto.
    - exists (gpio_intr_flag s). destruct s; reflexivity. }
  rewrite Hin in H. exact H.
Qed.

Lemma connect_failure_halts cfg s ms ms' i1 i2 i3 :
  pc s = L122 -> main_inputs ms = [i1; i2; i3] ->
  reply i1 <> Some OK_CONNECTED ->
  pc (exec cfg (ms ++ ms') s) = Halted HError /\
  trace (exec cfg (ms ++ ms') s)
  = trace s ++ [connect_exchange (reply i1); EvHandleError].
Proof.
  intros Hpc Hin Hr.
  destruct (connect_path cfg s ms i1 i2 i3 Hpc Hin) as [b E].
  assert (F : (status (at_command_send_receive AT_CONNECT RESPONSE_DELAY
                         (Some OK_CONNECTED) (reply i1)) =? SUCCESS) = false).
  { apply Z.eqb_neq. intro H. now apply engine_status_expected in H. }
  assert (E' : exec cfg ms s
               = {| pc := Halted HError; gpio_intr_flag := b;
                    result := status (at_command_send_receive AT_CONNECT
                                        RESPONSE_DELAY (Some OK_CONNECTED)
                                        (reply i1));
                    response := response s; drain_result := drain_result s;
                    trace := trace s ++ [connect_exchange (reply i1);
                                         EvHandleError] |}).
  { rewrite E. destruct s as [p f r resp dr t]; simpl in *; subst p.
    unfold main_step, at_global; simpl. rewrite F. simpl.
    unfold set_flag, goto, emit, set_result; simpl.
    now rewrite <- app_assoc. }
  rewrite exec_app, E', exec_halted by reflexivity.
  split; reflexivity.
Qed.

Lemma connect_success_continues cfg s ms i1 i2 i3 :
  pc s = L122 -> main_inputs ms = [i1; i2; i3] ->
  reply i1 = Some OK_CONNECTED ->
  pc (exec cfg ms s) = L161 /\
  trace (exec cfg ms s)
  = trace s ++ [connect_exchange (reply i1);
                EvCmd AT_CONF_TOPIC1 RESPONSE_DELAY None (reply i3)].
Proof.
  intros Hpc Hin Hr.
  destruct (connect_path cfg s ms i1 i2 i3 Hpc Hin) as [b E].
  rewrite E. destruct s as [p f r resp dr t]; simpl in *; subst p.
  unfold main_step, at_global; simpl. rewrite Hr, engine_match. simpl.
  unfold set_flag, goto, emit, set_result; simpl.
  split; [reflexivity|]. now rewrite <- app_assoc.
Qed.

(** C6.  In the primary flow ([AWS_FLOW] on): [handle_error] is entered only
    right after a cloud-connect exchange whose reply is not
    ["OK 1 CONNECTED\r\n"] (a timeout included), at most once, and it is the
    last event of the trace; a failed cloud-connect exchange is the last event
    or is followed by [handle_error] alone.  From line 122, a failing reply
    leads through the check of line 124 into [handle_error] and nothing is
    sent afterwards, while the exact literal leads on to the topic command.
    No other exchange of the flow leads to [handle_error]. *)
Theorem connect_failure_is_fatal cfg :
  AWS_FLOW cfg = true ->
  (forall ms,
     let t := trace (exec cfg ms (init cfg)) in
     (In EvHandleError t ->
      exists pre r,
        t = pre ++ [connect_exchange r; EvHandleError] /\
        r <> Some OK_CONNECTED /\
        ~ In EvHandleError pre /\ (forall r', ~ In (connect_exchange r') pre)) /\
     (forall r, In (connect_exchange r) t -> r <> Some OK_CONNECTED ->
      exists pre,
        ~ In EvHandleError pre /\ (forall r', ~ In (connect_exchange r') pre) /\
        (t = pre ++ [connect_exchange r] \/
         t = pre ++ [connect_exchange r; EvHandleError]))) /\
  (forall s ms ms' i1 i2 i3,
     pc s = L122 -> main_inputs ms = [i1; i2; i3] ->
     reply i1 <> Some OK_CONNECTED ->
     pc (exec cfg (ms ++ ms') s) = Halted HError /\
     trace (exec cfg (ms ++ ms') s)
     = trace s ++ [connect_exchange (reply i1); EvHandleError]) /\
  (forall s ms i1 i2 i3,
     pc s = L122 -> main_inputs ms = [i1; i2; i3] ->
     reply i1 = Some OK_CONNECTED ->
     pc (exec cfg ms s) = L161 /\
     trace (exec cfg ms s)
     = trace s ++ [connect_exchange (reply i1);
                   EvCmd AT_CONF_TOPIC1 RESPONSE_DELAY None (reply i3)]).
Proof.
  intro Hcfg. split; [|split].
  - intros ms t.
    assert (Inv : fatal_inv (exec cfg ms (init cfg)))
      by (apply exec_invariant;
          [intros; now apply fatal_inv_step | now apply fatal_inv_init]).
    split.
    + intro I. apply (fatal_shape _ Inv) in I. exact I.
    + intros r I N. apply (failed_connect_shape _ r Inv I N).
  - intros. now apply connect_failure_halts with (i2 := i2) (i3 := i3).
  - intros. now apply connect_success_continues with (i2 := i2).
Qed.

Lemma connect_failure_is_fatal_witness :
  let timeout := {| reply := None; connected := false |} in
  let up := {| reply := Some OK_IDLE; connected := true |} in
  let s0 := {| pc := L122; gpio_intr_flag := false; result := 1;
               response := None; drain_result := 0;
               trace := [EvIsAws false] |} in
  pc (exec build ([Go timeout; Irq; Go up; Go up] ++ [Go up; Go up]) s0)
  = Halted HError /\
  trace (exec build ([Go timeout; Irq; Go up; Go up] ++ [Go up; Go up]) s0)
  = [EvIsAws false] ++ [connect_exchange None; EvHandleError].
Proof.
  intros timeout up s0.
  apply (proj1 (proj2 (connect_failure_is_fatal build eq_refl))
           s0 [Go timeout; Irq; Go up; Go up] [Go up; Go up] timeout up up).
  - reflexivity.
  - reflexivity.
  - discriminate.
Defined.

(* ------------------------------------------------------------------------- *)
(** ** Provisioning when the cloud connection is already up *)

Lemma first_aws_status_app t l :
  first_aws_status (t ++ l)
  = match first_aws_status t with
    | Some b => Some b
    | None => first_aws_status l
    end.
Proof.
  induction t as [|e t IH]; simpl; [reflexivity|].
  destruct e; auto.
Qed.

Lemma skip_inv_step cfg s m : skip_inv s -> skip_inv (do_move cfg m s).
Proof.
  intro H. unfold do_move. destruct (halted s) eqn:Hh; [exact H|].
  destruct m as [|i]; [exact H|].
  destruct s as [p f r resp dr t]. unfold skip_inv in *. simpl in *.
  destruct (first_aws_status t) as [[|]|] eqn:E.
  - destruct H as [Hp H].
    destruct p; try discriminate Hp; try discriminate Hh; run_step;
      try destruct (classify resp) as [[]|]; split_ifs; simpl;
      rewrite ?first_aws_status_app, E; cbv beta iota.
    all: (split; [reflexivity|]); auto;
      apply Forall_app; split; auto; repeat constructor.
  - destruct p; try discriminate Hh; run_step;
      try destruct (classify resp) as [[]|]; split_ifs; simpl;
      rewrite ?first_aws_status_app, E; exact I.
  - destruct H as [Hp H].
    destruct p; try discriminate Hp; run_step;
      destruct (connected i); simpl; split_ifs; simpl;
      rewrite ?first_aws_status_app, E; simpl; try exact I;
      (split; [reflexivity|]); apply Forall_app; split; auto;
      repeat constructor.
Qed.

Lemma skip_inv_init cfg : skip_inv (init cfg).
Proof.
  unfold skip_inv, init, main_entry, flow_entry. simpl.
  destruct (MODIFY_SSID_AFTER_CONNECTED cfg), (AWS_FLOW cfg);
    split; auto.
Qed.


(* ------------------------------------------------------------------------- *)
(** * Further properties of [main.c] *)

(** Case analysis on the build switches a goal mentions, before its tests. *)
Ltac split_conds cfg :=
  repeat match goal with
         | |- context [AWS_FLOW cfg] => destruct (AWS_FLOW cfg)
         | |- context [CIRRENT_APP_ONBOARDING cfg] =>
             destruct (CIRRENT_APP_ONBOARDING cfg)
         | |- context [MODIFY_SSID_AFTER_CONNECTED cfg] =>
             destruct (MODIFY_SSID_AFTER_CONNECTED cfg)
         | |- context [if ?b then _ else _] => is_var b; destruct b
         | |- context [negb (?a =? ?b)] => destruct (a =? b)
         | |- context [if (?a =? ?b) then _ else _] => destruct (a =? b)
         end;
  simpl.

(* ------------------------------------------------------------------------- *)
(** ** Runs away from the flag *)

(** Away from lines 168 and 205 the interrupt line only shows in the flag. *)
Lemma exec_blind cfg ms : forall s b,
  blind_path cfg (main_inputs ms) s = true ->
  exists b', exec cfg ms (set_flag b s)
             = set_flag b' (main_run cfg (main_inputs ms) s).
Proof.
  induction ms as [|m ms IH]; intros s b H; simpl in *.
  - now exists b.
  - destruct m as [|i].
    + destruct (irq_set_flag cfg b s) as [b' E]. rewrite E. now apply IH.
    + simpl in H. apply andb_prop in H. destruct H as [H1 H2].
      rewrite go_set_flag by exact H1. now apply IH.
Qed.

Lemma set_flag_same s : set_flag (gpio_intr_flag s) s = s.
Proof. now destruct s. Qed.

Lemma exec_blind_run cfg ms s :
  blind_path cfg (main_inputs ms) s = true ->
  exists b, exec cfg ms s = set_flag b (main_run cfg (main_inputs ms) s).
Proof.
  intro H. destruct (exec_blind cfg ms s (gpio_intr_flag s) H) as [b E].
  rewrite set_flag_same in E. eauto.
Qed.

(** X1.  A pass whose event query returns ["OK 5 1 OTA\r\n"] issues
    [AT+OTA ACCEPT] once, and one whose query returns ["OK 5 4 OTA\r\n"]
    issues [AT+OTA APPLY] once; either pass takes no other action and ends at
    the loop head with the flag cleared, whatever the interrupt line does. *)
Theorem ota_event_pass cfg s ms i0 i1 i2 i3 i4 :
  pc s = L168 -> gpio_intr_flag s = true ->
  main_inputs ms = [i0; i1; i2; i3] ->
  (reply i1 = Some EV_OTA_OFFERED ->
   exec cfg (ms ++ [Go i4]) s
   = {| pc := L168; gpio_intr_flag := false;
        result := status (at_command_send_receive AT_OTA_ACCEPT RESPONSE_DELAY
                            None (reply i3));
        response := Some EV_OTA_OFFERED; drain_result := drain_result s;
        trace := trace s ++ [event_query (Some EV_OTA_OFFERED);
                             EvCmd AT_OTA_ACCEPT RESPONSE_DELAY None
                               (reply i3)] |}) /\
  (reply i1 = Some EV_OTA_VERIFIED ->
   exec cfg (ms ++ [Go i4]) s
   = {| pc := L168; gpio_intr_flag := false;
        result := status (at_command_send_receive AT_OTA_APPLY RESPONSE_DELAY
                            None (reply i3));
        response := Some EV_OTA_VERIFIED; drain_result := drain_result s;
        trace := trace s ++ [event_query (Some EV_OTA_VERIFIED);
                             EvCmd AT_OTA_APPLY RESPONSE_DELAY None
                               (reply i3)] |}).
Proof.
  intros Hpc Hflag Hin. split; intro Hrep; rewrite exec_snoc.
  - rewrite (pass_stages cfg s EV_OTA_OFFERED OtaOffered ms i0 i1 i2 i3)
      by (auto; discriminate).
    reflexivity.
  - rewrite (pass_stages cfg s EV_OTA_VERIFIED OtaVerified ms i0 i1 i2 i3)
      by (auto; discriminate).
    reflexivity.
Qed.

Lemma ota_event_pass_witness :
  let quiet := {| reply := None; connected := false |} in
  let s0 := {| pc := L168; gpio_intr_flag := true; result := 1;
               response := None; drain_result := 1; trace := [] |} in
  exec build ([Go quiet; Go {| reply := Some EV_OTA_VERIFIED;
                               connected := false |};
               Irq; Go quiet; Go quiet] ++ [Go quiet]) s0
  = {| pc := L168; gpio_intr_flag := false; result := FAILURE;
       response := Some EV_OTA_VERIFIED; drain_result := 1;
       trace := [event_query (Some EV_OTA_VERIFIED);
                 EvCmd AT_OTA_APPLY RESPONSE_DELAY None None] |}.
Proof.
  intros quiet s0.
  apply (proj2 (ota_event_pass build s0
                  [Go quiet; Go {| reply := Some EV_OTA_VERIFIED;
                                   connected := false |};
                   Irq; Go quiet; Go quiet] quiet
                  {| reply := Some EV_OTA_VERIFIED; connected := false |}
                  quiet quiet quiet eq_refl eq_refl eq_refl)).
  reflexivity.
Defined.

(** Runs of the callback alone only write the flag. *)
Lemma exec_irqs cfg (n : nat) s :
  exists b, exec cfg (repeat Irq n) s = set_flag b s.
Proof.
  induction n as [|n IH] in s |- *; simpl.
  - exists (gpio_intr_flag s). now rewrite set_flag_same.
  - destruct (irq_move cfg s) as [E|E]; rewrite E.
    + apply IH.
    + destruct (IH (set_flag true s)) as [b Hb]. rewrite Hb.
      exists b. now destruct s.
Qed.

(** At the loop head with the flag clear the main thread does nothing. *)
Lemma idle_loop cfg inputs : forall s,
  pc s = L168 -> gpio_intr_flag s = false ->
  exec cfg (map Go inputs) s = s.
Proof.
  induction inputs as [|i inputs IH]; intros s Hpc Hf; simpl; [reflexivity|].
  assert (E : do_move cfg (Go i) s = s).
  { destruct s as [p f r resp dr t]; simpl in *; subst. reflexivity. }
  rewrite E. now apply IH.
Qed.

(** X3.  Interrupts raised while the main thread stands at line 205 are
    lost: however often the callback runs there, the next step clears the
    flag, and from then on the main thread stays at the loop head without
    sending anything until the callback runs again. *)
Theorem interrupts_before_clear_are_lost cfg s (n : nat) i inputs :
  pc s = L205 ->
  exec cfg (repeat Irq n ++ Go i :: map Go inputs) s
  = goto L168 (set_flag false s).
Proof.
  intro Hpc. rewrite exec_app.
  destruct (exec_irqs cfg n s) as [b ->].
  simpl.
  assert (E : do_move cfg (Go i) (set_flag b s) = goto L168 (set_flag false s)).
  { destruct s as [p f r resp dr t]; simpl in *; subst. reflexivity. }
  rewrite E. apply idle_loop; reflexivity.
Qed.

Lemma interrupts_before_clear_are_lost_witness :
  let quiet := {| reply := None; connected := false |} in
  let s0 := {| pc := L205; gpio_intr_flag := true; result := 1;
               response := Some EV_MSG; drain_result := 1; trace := [] |} in
  exec build (repeat Irq 3 ++ Go quiet :: map Go [quiet; quiet]) s0
  = goto L168 (set_flag false s0).
Proof.
  intros quiet s0.
  apply (interrupts_before_clear_are_lost build s0 3 quiet [quiet; quiet]).
  reflexivity.
Defined.

(** Evaluate the steps of a run from the inside out, one line at a time. *)
Ltac eval_main_steps :=
  repeat match goal with
         | |- context [main_step ?c ?i (Build_state ?p ?f ?r ?rs ?d ?t)] =>
             let x := eval cbv beta iota zeta delta
                        [main_step wifionboarding empty_event_queue at_global
                         is_aws_connected is_wifi_connected delay_ms
                         handle_error NVIC_SystemReset goto emit set_result
                         set_response set_drain_result set_flag
                         pc gpio_intr_flag result response drain_result trace
                         reply connected negb
                         wifionboarding_entry wifionboarding_return flow_entry
                         MODIFY_SSID_AFTER_CONNECTED CIRRENT_APP_ONBOARDING
                         AWS_FLOW MAX_CONNECT_DELAY]
                        in (main_step c i (Build_state p f r rs d t)) in
             change (main_step c i (Build_state p f r rs d t)) with x
         end.

(** X4.  The primary flow on a module that is not connected to the cloud: the
    endpoint command is sent first, then the Wi-Fi status is read; if Wi-Fi is
    down the SSID and passphrase commands follow (direct credentials), if it
    is up they are skipped; the connect command, expecting
    ["OK 1 CONNECTED\r\n"], comes last and leads to the check of line 124. *)
Theorem primary_flow_order cfg s ms i1 i2 i3 i4 :
  AWS_FLOW cfg = true -> pc s = L109 ->
  connected i1 = false ->
  (forall i5 i6,
     CIRRENT_APP_ONBOARDING cfg = false -> connected i3 = false ->
     main_inputs ms = [i1; i2; i3; i4; i5; i6] ->
     pc (exec cfg ms s) = L124 /\
     trace (exec cfg ms s)
     = trace s ++ [EvIsAws false;
                   EvCmd SET_ENDPOINT RESPONSE_DELAY None (reply i2);
                   EvIsWifi false;
                   EvCmd SET_SSID RESPONSE_DELAY None (reply i4);
                   EvCmd SET_PASSPHRASE RESPONSE_DELAY None (reply i5);
                   connect_exchange (reply i6)]) /\
  (connected i3 = true ->
   main_inputs ms = [i1; i2; i3; i4] ->
   pc (exec cfg ms s) = L124 /\
   trace (exec cfg ms s)
   = trace s ++ [EvIsAws false;
                 EvCmd SET_ENDPOINT RESPONSE_DELAY None (reply i2);
                 EvIsWifi true;
                 connect_exchange (reply i4)]).
Proof.
  intros Hcfg Hpc H1.
  destruct cfg as [m c a d], s as [p f r resp dr t], i1 as [r1 c1],
    i3 as [r3 c3]; simpl in *; subst.
  split.
  - intros i5 i6 -> -> Hin.
    match goal with
    | |- context [exec ?c ms ?s] =>
        destruct (exec_blind_run c ms s) as [b E]
    end; [|rewrite E]; rewrite Hin; cbn [blind_path main_run];
      eval_main_steps; [reflexivity|].
    simpl. split; [reflexivity|]. unfold connect_exchange.
    now rewrite <- !app_assoc.
  - intros -> Hin.
    match goal with
    | |- context [exec ?c ms ?s] =>
        destruct (exec_blind_run c ms s) as [b E]
    end; [|rewrite E]; rewrite Hin; cbn [blind_path main_run];
      eval_main_steps; [reflexivity|].
    simpl. split; [reflexivity|]. unfold connect_exchange.
    now rewrite <- !app_assoc.
Qed.

Lemma primary_flow_order_witness :
  let down := {| reply := Some OK_IDLE; connected := false |} in
  let ms := [Go down; Irq; Go down; Go down; Go down; Go down; Go down] in
  pc (exec build ms (init build)) = L124 /\
  trace (exec build ms (init build))
  = trace (init build)
    ++ [EvIsAws false;
        EvCmd SET_ENDPOINT RESPONSE_DELAY None (Some OK_IDLE);
        EvIsWifi false;
        EvCmd SET_SSID RESPONSE_DELAY None (Some OK_IDLE);
        EvCmd SET_PASSPHRASE RESPONSE_DELAY None (Some OK_IDLE);
        connect_exchange (Some OK_IDLE)].
Proof.
  intros down ms.
  apply (proj1 (primary_flow_order build (init build) ms down down down down
                  eq_refl eq_refl eq_refl) down down);
    reflexivity.
Defined.

(* ------------------------------------------------------------------------- *)
(** ** Event queries and interrupts *)

Lemma count_event_queries_snoc t e :
  count_event_queries (t ++ [e])
  = (count_event_queries t + (if is_event_query e then 1 else 0))%nat.
Proof.
  unfold count_event_queries. rewrite filter_app, length_app. simpl.
  destruct (is_event_query e); reflexivity.
Qed.

Lemma count_irq_snoc ms m :
  count_irq (ms ++ [m])
  = (count_irq ms + match m with Irq => 1 | Go _ => 0 end)%nat.
Proof.
  induction ms as [|m' ms IH]; simpl.
  - destruct m; reflexivity.
  - destruct m'; rewrite IH; reflexivity.
Qed.

(** Every query has been paid for by a run of the callback, and a set flag
    or a pass under way still holds one run in reserve. *)
Lemma query_budget_step cfg s m (k : nat) :
  (count_event_queries (trace s)
   + (if query_owed s then 1 else 0) <= k)%nat ->
  (count_event_queries (trace (do_move cfg m s))
   + (if query_owed (do_move cfg m s) then 1 else 0)
   <= k + match m with Irq => 1 | Go _ => 0 end)%nat.
Proof.
  intro H. unfold do_move. destruct (halted s) eqn:Hh.
  - destruct m; lia.
  - destruct m as [|i].
    + destruct s as [p f r resp dr t]; unfold query_owed in *; simpl in *.
      destruct p; try destruct f; simpl in *; lia.
    + destruct s as [p f r resp dr t]; unfold query_owed in *.
      destruct p; try discriminate Hh; run_step;
        try destruct (classify resp) as [[]|]; try destruct (connected i);
        unfold_state; split_conds cfg; split_ifs; simpl;
        rewrite ?count_event_queries_snoc;
        repeat match goal with
               | |- context [is_event_query ?e] =>
                   let b := eval vm_compute in (is_event_query e) in
                   change (is_event_query e) with b
               end;
        simpl; simpl in H; try lia.
      all: lia.
Qed.

Lemma query_budget cfg ms :
  (count_event_queries (trace (exec cfg ms (init cfg)))
   + (if query_owed (exec cfg ms (init cfg)) then 1 else 0)
   <= count_irq ms)%nat.
Proof.
  induction ms as [|m ms IH] using rev_ind.
  - simpl. unfold query_owed, init, main_entry, flow_entry. simpl.
    destruct (MODIFY_SSID_AFTER_CONNECTED cfg), (AWS_FLOW cfg); simpl; lia.
  - rewrite exec_snoc, count_irq_snoc. now apply query_budget_step.
Qed.

(** X2.  In every execution the event loop has sent at most as many event
    queries as the interrupt callback has run: no interrupt, no query, and
    interrupts that arrive during a pass are not queued up. *)
Theorem event_queries_bounded_by_interrupts cfg ms :
  (count_event_queries (trace (exec cfg ms (init cfg))) <= count_irq ms)%nat.
Proof.
  pose proof (query_budget cfg ms) as H. lia.
Qed.

(* ------------------------------------------------------------------------- *)
(** ** What a build can do *)

Lemma build_inv_step cfg s m :
  build_inv cfg s -> build_inv cfg (do_move cfg m s).
Proof.
  intro H. unfold do_move. destruct (halted s) eqn:Hh; [exact H|].
  destruct m as [|i]; [exact H|].
  destruct s as [p f r resp dr t]. destruct H as [Hl Ht]. simpl in *.
  unfold build_inv.
  destruct cfg as [[] [] [] d]; destruct p; try discriminate Hl;
    try discriminate Hh; run_step;
    try destruct (classify resp) as [[]|]; try destruct (connected i);
    simpl; split_ifs; simpl; (split; [reflexivity|]); auto;
    apply Forall_app; (split; [exact Ht|]);
    (apply Forall_cons; [|apply Forall_nil]); simpl;
    solve [intuition reflexivity].
Qed.

Lemma build_inv_init cfg : build_inv cfg (init cfg).
Proof.
  destruct cfg as [[] [] [] d]; split; simpl; auto.
Qed.

Lemma build_inv_exec cfg ms : build_inv cfg (exec cfg ms (init cfg)).
Proof.
  apply exec_invariant; [intros; now apply build_inv_step|apply build_inv_init].
Qed.

Lemma exec_event_enabled cfg ms e :
  In e (trace (exec cfg ms (init cfg))) -> event_enabled cfg e.
Proof.
  intro H. destruct (build_inv_exec cfg ms) as [_ Hall].
  rewrite Forall_forall in Hall. now apply Hall.
Qed.

(** Split membership in a literal list of exchanges into its cases, dropping
    the ones whose command text differs. *)
Ltac exchange_cases H :=
  simpl in H;
  repeat (destruct H as [H|H]);
  try contradiction;
  try (apply pair_equal_spec in H;
       let H1 := fresh in let H2 := fresh in
       destruct H as [H1 H2];
       try discriminate H2;
       try (vm_compute in H1; discriminate H1);
       clear H1; try subst).

(** X5.  With [AWS_FLOW] off no execution enters [handle_error]; the connect
    command is then sent without an expected reply and the endpoint command
    is never sent. *)
Theorem legacy_flow_never_fatal cfg ms :
  AWS_FLOW cfg = false ->
  let s := exec cfg ms (init cfg) in
  pc s <> Halted HError /\
  ~ In EvHandleError (trace s) /\
  (forall tm ex r, In (EvCmd AT_CONNECT tm ex r) (trace s) -> ex = None) /\
  (forall tm ex r, ~ In (EvCmd SET_ENDPOINT tm ex r) (trace s)).
Proof.
  intros Hcfg s. subst s. split; [|split; [|split]].
  - destruct (build_inv_exec cfg ms) as [Hl _]. intro E. rewrite E in Hl.
    simpl in Hl. congruence.
  - intro H. apply exec_event_enabled in H. simpl in H. congruence.
  - intros tm ex r H. apply exec_event_enabled in H. destruct H as [_ H].
    destruct cfg as [[] [] a d]; simpl in Hcfg; subst a;
      exchange_cases H; reflexivity.
  - intros tm ex r H. apply exec_event_enabled in H. destruct H as [_ H].
    destruct cfg as [[] [] a d]; simpl in Hcfg; subst a;
      exchange_cases H.
Qed.

(** X9.  The onboarding strategies exclude each other: with
    [CIRRENT_APP_ONBOARDING] off no execution reaches lines 227-233 or sends
    [AT+CONFMODE]; with it on no execution reaches lines 239-242 or sends the
    SSID or passphrase command. *)
Theorem onboarding_strategies_exclusive cfg ms :
  let s := exec cfg ms (init cfg) in
  (CIRRENT_APP_ONBOARDING cfg = false ->
   pc s <> W227 /\ pc s <> W231 /\ pc s <> W233 /\
   forall tm ex r, ~ In (EvCmd AT_CONFMODE tm ex r) (trace s)) /\
  (CIRRENT_APP_ONBOARDING cfg = true ->
   pc s <> W239 /\ pc s <> W242 /\
   forall tm ex r,
     ~ In (EvCmd SET_SSID tm ex r) (trace s) /\
     ~ In (EvCmd SET_PASSPHRASE tm ex r) (trace s)).
Proof.
  intro s. subst s. destruct (build_inv_exec cfg ms) as [Hl _].
  split; intro Hcfg.
  - repeat split;
      try (intro E; rewrite E in Hl; simpl in Hl; congruence).
    intros tm ex r H. apply exec_event_enabled in H. destruct H as [_ H].
    destruct cfg as [[] c [] d]; simpl in Hcfg; subst c; exchange_cases H.
  - repeat split;
      try (intro E; rewrite E in Hl; simpl in Hl; rewrite Hcfg in Hl;
           discriminate Hl).
    all: intro H; apply exec_event_enabled in H; destruct H as [_ H];
      destruct cfg as [[] c [] d]; simpl in Hcfg; subst c; exchange_cases H.
Qed.

Lemma legacy_flow_never_fatal_witness :
  let legacy := {| MODIFY_SSID_AFTER_CONNECTED := false;
                   CIRRENT_APP_ONBOARDING := true;
                   AWS_FLOW := false;
                   MAX_CONNECT_DELAY := 120000 |} in
  let down := {| reply := None; connected := false |} in
  pc (exec legacy [Go down; Go down; Go down; Irq; Go down] (init legacy))
  <> Halted HError.
Proof.
  intros legacy down.
  exact (proj1 (legacy_flow_never_fatal legacy
                  [Go down; Go down; Go down; Irq; Go down] eq_refl)).
Defined.

Lemma onboarding_strategies_exclusive_witness :
  let down := {| reply := None; connected := false |} in
  pc (exec build [Go down; Go down; Go down; Go down] (init build)) <> W227.
Proof.
  intro down.
  exact (proj1 (proj1 (onboarding_strategies_exclusive build
                         [Go down; Go down; Go down; Go down]) eq_refl)).
Defined.

(* ------------------------------------------------------------------------- *)
(** ** Subscription before the loop *)

Lemma before_loop_snoc t e :
  before_loop t -> is_loop_command e = false -> before_loop (t ++ [e]).
Proof.
  intros H He. apply Forall_app. split; [exact H|]. now constructor.
Qed.

Lemma subscribe_inv_step cfg s m :
  subscribe_inv s -> subscribe_inv (do_move cfg m s).
Proof.
  intro H. unfold do_move. destruct (halted s) eqn:Hh; [exact H|].
  destruct m as [|i]; [exact H|].
  destruct (trace_extends cfg (Go i) s) as [l El].
  unfold do_move in El. rewrite Hh in El.
  destruct H as [H0 [H1 H2]]. split; [|split].
  - destruct (subscribed (pc s)) eqn:Hsub.
    + destruct s as [p f r resp dr t]; simpl in *.
      destruct p; try discriminate Hsub; try discriminate Hh; run_step;
        try destruct (classify resp) as [[]|];
        unfold_state; split_conds cfg; intro Hs; discriminate Hs.
    + specialize (H0 eq_refl).
      destruct s as [p f r resp dr t]; simpl in *.
      destruct p; try discriminate Hsub; try discriminate Hh; run_step;
        try destruct (connected i);
        unfold_state; split_conds cfg; intro Hs; try discriminate Hs;
        try exact H0; now apply before_loop_snoc.
  - destruct s as [p f r resp dr t]; simpl in *.
    destruct p; try discriminate Hh; run_step;
      try destruct (classify resp) as [[]|]; try destruct (connected i);
      unfold_state; split_conds cfg; intro Hpc; try discriminate Hpc.
    all: exists t, (reply i); reflexivity.
  - destruct (subscribed (pc s)) eqn:Hsub.
    + intros _. destruct (H2 eq_refl) as [pre [r1 [r2 [post [Hq E]]]]].
      exists pre, r1, r2, (post ++ l). split; [exact Hq|]. rewrite El, E.
      now rewrite <- !app_assoc.
    + specialize (H0 eq_refl).
      destruct s as [p f r resp dr t]; simpl in *.
      destruct p; try discriminate Hsub; try discriminate Hh; run_step;
        try destruct (connected i);
        unfold_state; split_conds cfg; intro Hs; try discriminate Hs.
      all: destruct (H1 eq_refl) as [pre [r1 E]]; subst t;
        exists pre, r1, (reply i), [];
        split; [apply Forall_app in H0; tauto|now rewrite <- app_assoc].
Qed.

Lemma subscribe_inv_init cfg : subscribe_inv (init cfg).
Proof.
  split; [|split]; unfold init, main_entry, flow_entry; simpl;
    destruct (MODIFY_SSID_AFTER_CONNECTED cfg), (AWS_FLOW cfg); simpl;
    try discriminate; intros _; constructor.
Qed.

(** X11.  An execution that stands in the drain or in the event loop has sent
    the topic command and, right after it, the subscribe command, and no
    command of the drain or of the loop before them; an execution that has
    not got that far has sent no such command at all. *)
Theorem loop_entered_subscribed cfg ms :
  let s := exec cfg ms (init cfg) in
  (subscribed (pc s) = true ->
   exists pre r1 r2 post,
     before_loop pre /\
     trace s = pre ++ [topic_exchange r1; subscribe_exchange r2] ++ post) /\
  (subscribed (pc s) = false -> before_loop (trace s)).
Proof.
  intro s.
  assert (Inv : subscribe_inv s)
    by (apply exec_invariant; [intros; now apply subscribe_inv_step
                              | apply subscribe_inv_init]).
  destruct Inv as [H0 [_ H2]]. split; assumption.
Qed.

Lemma loop_entered_subscribed_witness :
  let up := {| reply := Some OK_IDLE; connected := true |} in
  exists pre r1 r2 post,
    before_loop pre /\
    trace (exec build [Go up; Go up; Go up; Irq; Go up] (init build))
    = pre ++ [topic_exchange r1; subscribe_exchange r2] ++ post.
Proof.
  intro up.
  exact (proj1 (loop_entered_subscribed build
                  [Go up; Go up; Go up; Irq; Go up]) eq_refl).
Defined.

(* ------------------------------------------------------------------------- *)
(** ** The globals [response] and [result] *)

Lemma last_query_reply_snoc t e :
  last_query_reply (t ++ [e])
  = match e with
    | EvCmd _ _ _ r => if is_event_query e then r else last_query_reply t
    | _ => last_query_reply t
    end.
Proof. unfold last_query_reply. now rewrite fold_left_app. Qed.

Lemma response_tracks_step cfg s m :
  response s = last_query_reply (trace s) ->
  response (do_move cfg m s) = last_query_reply (trace (do_move cfg m s)).
Proof.
  intro H. unfold do_move. destruct (halted s) eqn:Hh; [exact H|].
  destruct m as [|i]; [exact H|].
  destruct s as [p f r resp dr t]; simpl in *.
  destruct p; try discriminate Hh; run_step;
    try destruct (classify resp) as [[]|]; try destruct (connected i);
    unfold_state; split_conds cfg; rewrite ?last_query_reply_snoc;
    try exact H.
  all: now rewrite engine_body.
Qed.

(** X12.  In every execution the global [response] holds what the most recent
    event query of line 171 returned, and [NULL] before the first one: no
    other line assigns it. *)
Theorem response_is_last_query_reply cfg ms :
  response (exec cfg ms (init cfg))
  = last_query_reply (trace (exec cfg ms (init cfg))).
Proof.
  apply exec_invariant; [intros; now apply response_tracks_step|].
  reflexivity.
Qed.

Lemma drain_keeps_globals_inv cfg s0 ms :
  pc s0 = D254 ->
  let s := exec cfg ms s0 in
  in_loop (pc s) = true \/
  (in_drain (pc s) = true /\ result s = result s0 /\
   response s = response s0 /\
   exists rs, trace s = trace s0 ++ map drain_query rs).
Proof.
  intros Hpc s. subst s.
  apply (exec_invariant cfg (fun s =>
    in_loop (pc s) = true \/
    (in_drain (pc s) = true /\ result s = result s0 /\
     response s = response s0 /\
     exists rs, trace s = trace s0 ++ map drain_query rs))).
  - intros s m H. unfold do_move. destruct (halted s) eqn:Hh; [exact H|].
    destruct m as [|i]; [exact H|].
    destruct s as [p f r resp dr t]; simpl in *.
    destruct H as [H|[Hd [Hr [Hresp [rs Ht]]]]].
    + left. destruct p; try discriminate H; try discriminate Hh; run_step;
        try destruct (classify resp) as [[]|];
        unfold_state; split_conds cfg; reflexivity.
    + destruct p; try discriminate Hd; run_step; unfold_state;
        split_conds cfg; auto.
      * right. repeat split; auto. exists rs. exact Ht.
      * right. repeat split; auto. exists rs. exact Ht.
      * right. repeat split; auto. exists (rs ++ [reply i]).
        rewrite Ht, map_app, <- app_assoc. reflexivity.
  - right. rewrite Hpc. repeat split. exists []. simpl.
    now rewrite app_nil_r.
Qed.

(** X13.  [empty_event_queue] works on its own [result]: as long as an
    execution entered at line 254 stands in the drain, the globals [result]
    and [response] are what they were on entry and nothing but drain queries
    has been sent, whatever the interrupt line does. *)
Theorem drain_keeps_globals cfg s0 ms :
  pc s0 = D254 ->
  let s := exec cfg ms s0 in
  in_drain (pc s) = true ->
  result s = result s0 /\ response s = response s0 /\
  exists rs, trace s = trace s0 ++ map drain_query rs.
Proof.
  intros Hpc s Hd.
  destruct (drain_keeps_globals_inv cfg s0 ms Hpc) as [H|[_ H]].
  - fold s in H. destruct (pc s); discriminate.
  - exact H.
Qed.


Lemma drain_keeps_globals_witness :
  let s0 := {| pc := D254; gpio_intr_flag := false; result := 1;
               response := None; drain_result := 7; trace := [] |} in
  let busy := {| reply := Some EV_MSG; connected := false |} in
  let s := exec build [Go busy; Irq; Go busy; Go busy; Go busy] s0 in
  result s = result s0 /\ response s = response s0 /\
  exists rs, trace s = trace s0 ++ map drain_query rs.
Proof.
  intros s0 busy.
  exact (drain_keeps_globals build s0
           [Go busy; Irq; Go busy; Go busy; Go busy] eq_refl eq_refl).
Defined.

(* ------------------------------------------------------------------------- *)
(** ** The disconnect command of line 103 *)

Lemma disconnect_inv_step cfg s m :
  disconnect_inv cfg s -> disconnect_inv cfg (do_move cfg m s).
Proof.
  intro H. unfold do_move. destruct (halted s) eqn:Hh; [exact H|].
  destruct m as [|i].
  { destruct s as [p f r resp dr t]. destruct p; exact H. }
  destruct s as [p f r resp dr t]. unfold disconnect_inv in *. simpl in *.
  destruct p; try discriminate Hh;
    try (destruct H as [hd [tl [-> [Htl Hhd]]]]); run_step;
    try destruct (classify resp) as [[]|]; try destruct (connected i);
    unfold_state; split_conds cfg;
    try (exists hd, tl; repeat split; assumption);
    try (eexists hd, (tl ++ [_]); split; [now rewrite app_assoc|];
         split; [apply Forall_app; split; [exact Htl|now constructor]
                |exact Hhd]).
  all: destruct H as [Hm ->];
    exists [disconnect_exchange (reply i)], []; repeat split; auto;
    right; split; eauto.
Qed.

Lemma disconnect_inv_init cfg : disconnect_inv cfg (init cfg).
Proof.
  unfold disconnect_inv, init, main_entry, flow_entry. simpl.
  destruct (MODIFY_SSID_AFTER_CONNECTED cfg) eqn:E.
  - split; reflexivity.
  - destruct (AWS_FLOW cfg); exists [], []; repeat split; auto.
Qed.

Lemma not_disconnect_in tl tm ex r :
  Forall (fun e => is_disconnect e = false) tl ->
  ~ In (EvCmd AT_DISCONNECT tm ex r) tl.
Proof.
  intros H I. rewrite Forall_forall in H. apply H in I. discriminate I.
Qed.

(** X8.  With [MODIFY_SSID_AFTER_CONNECTED] off the disconnect command is never
    sent; with it on, the disconnect command is the first event of every
    non-empty trace and is not sent again. *)
Theorem disconnect_first_and_once cfg ms :
  let t := trace (exec cfg ms (init cfg)) in
  (MODIFY_SSID_AFTER_CONNECTED cfg = false ->
   forall tm ex r, ~ In (EvCmd AT_DISCONNECT tm ex r) t) /\
  (MODIFY_SSID_AFTER_CONNECTED cfg = true ->
   t = [] \/
   exists r0 tl,
     t = disconnect_exchange r0 :: tl /\
     forall tm ex r, ~ In (EvCmd AT_DISCONNECT tm ex r) tl).
Proof.
  intro t. subst t.
  assert (Inv : disconnect_inv cfg (exec cfg ms (init cfg)))
    by (apply exec_invariant; [intros; now apply disconnect_inv_step
                              | apply disconnect_inv_init]).
  unfold disconnect_inv in Inv.
  destruct (loc_eq_dec (pc (exec cfg ms (init cfg))) L103) as [E|N].
  - rewrite E in Inv. destruct Inv as [Hm Ht]. rewrite Ht. split.
    + intros _ tm ex r [].
    + intros _. now left.
  - assert (Inv' : exists hd tl,
               trace (exec cfg ms (init cfg)) = hd ++ tl /\
               Forall (fun e => is_disconnect e = false) tl /\
               ((MODIFY_SSID_AFTER_CONNECTED cfg = false /\ hd = []) \/
                (MODIFY_SSID_AFTER_CONNECTED cfg = true /\
                 exists r, hd = [disconnect_exchange r])))
      by (destruct (pc (exec cfg ms (init cfg))); try exact Inv;
          contradiction).
    destruct Inv' as [hd [tl [-> [Htl Hhd]]]]. split; intro Hm.
    + destruct Hhd as [[_ ->]|[Hm' _]]; [|congruence].
      intros tm ex r. now apply not_disconnect_in.
    + destruct Hhd as [[Hm' _]|[_ [r0 ->]]]; [congruence|].
      right. exists r0, tl. split; [reflexivity|].
      intros tm ex r. now apply not_disconnect_in.
Qed.

Lemma disconnect_first_and_once_witness :
  let switched := {| MODIFY_SSID_AFTER_CONNECTED := true;
                     CIRRENT_APP_ONBOARDING := false;
                     AWS_FLOW := true;
                     MAX_CONNECT_DELAY := 120000 |} in
  let up := {| reply := Some OK_IDLE; connected := true |} in
  let t := trace (exec switched [Go up; Irq; Go up; Go up]
                    (init switched)) in
  t = [] \/
  exists r0 tl,
    t = disconnect_exchange r0 :: tl /\
    forall tm ex r, ~ In (EvCmd AT_DISCONNECT tm ex r) tl.
Proof.
  intros switched up.
  exact (proj2 (disconnect_first_and_once switched
                  [Go up; Irq; Go up; Go up]) eq_refl).
Defined.

(* ------------------------------------------------------------------------- *)
(** ** The waiting loops of the legacy flow and of the companion-app onboarding *)

Lemma run_status_add cfg r0 b base (n m : nat) : forall s,
  run_status cfg r0 b base (n + m) s
  = run_status cfg r0 b base m (run_status cfg r0 b base n s).
Proof.
  induction n as [|n IH]; intro s; simpl; [reflexivity|]. apply IH.
Qed.

Lemma queries_made_app t l :
  queries_made (t ++ l) = (queries_made t + queries_made l)%nat.
Proof. unfold queries_made. now rewrite filter_app, length_app. Qed.

Lemma first_true (b : nat -> bool) (k : nat) :
  b k = true ->
  exists k', b k' = true /\ forall j, (j < k')%nat -> b j = false.
Proof.
  induction k as [k IH] using lt_wf_ind. intro Hk.
  assert (D : (exists j, (j < k)%nat /\ b j = true) \/
              (forall j, (j < k)%nat -> b j = false)).
  { clear. induction k as [|k [[j [Hj E]]|N]].
    - right. intros j Hj. lia.
    - left. exists j. split; [lia|exact E].
    - destruct (b k) eqn:E.
      + left. exists k. split; [lia|exact E].
      + right. intros j Hj.
        destruct (Nat.eq_dec j k) as [->|Nj]; [exact E|apply N; lia]. }
  destruct D as [[j [Hj E]]|N].
  - now apply (IH j).
  - exists k. split; assumption.
Qed.


Lemma queries_made_aws_answers b k : queries_made (aws_answers b k) = k.
Proof.
  unfold aws_answers, queries_made.
  induction k as [|k IH]; [reflexivity|].
  rewrite seq_S, map_app, filter_app, length_app, IH. simpl. lia.
Qed.

Lemma spin_iterations cfg r0 b s (k : nat) :
  pc s = L151 ->
  (forall j, (j < k)%nat -> b j = false) ->
  run_status cfg r0 b (queries_made (trace s)) (1 + k) s
  = {| pc := L153; gpio_intr_flag := gpio_intr_flag s; result := result s;
       response := response s; drain_result := drain_result s;
       trace := trace s ++ EvDelay (MAX_CONNECT_DELAY cfg)
                           :: aws_answers b k |}.
Proof.
  intro Hpc. induction k as [|k IH]; intro Hb.
  - destruct s as [p f r resp dr t]; simpl in *; subst. reflexivity.
  - replace (1 + S k)%nat with ((1 + k) + 1)%nat by lia.
    rewrite run_status_add, IH by (intros j Hj; apply Hb; lia).
    cbn [run_status]. unfold do_move, status_input. cbn [halted pc trace].
    rewrite queries_made_app. 
    change (EvDelay (MAX_CONNECT_DELAY cfg) :: aws_answers b k)
      with ([EvDelay (MAX_CONNECT_DELAY cfg)] ++ aws_answers b k).
    rewrite queries_made_app, queries_made_aws_answers.
    replace (queries_made (trace s) + (queries_made [EvDelay (MAX_CONNECT_DELAY cfg)] + k)
             - queries_made (trace s))%nat with k
      by (unfold queries_made; simpl; lia).
    unfold main_step, is_aws_connected; cbn [pc connected].
    rewrite (Hb k) by lia. unfold_state.
    unfold aws_answers. rewrite seq_S, map_app. simpl.
    rewrite (Hb k) by lia.
    now rewrite <- app_assoc.
Qed.

Lemma spin_completes cfg r0 b s (k : nat) :
  pc s = L151 ->
  (forall j, (j < k)%nat -> b j = false) ->
  b k = true ->
  run_status cfg r0 b (queries_made (trace s)) (k + 2) s
  = {| pc := L159; gpio_intr_flag := gpio_intr_flag s; result := result s;
       response := response s; drain_result := drain_result s;
       trace := trace s ++ EvDelay (MAX_CONNECT_DELAY cfg)
                           :: aws_answers b (S k) |}.
Proof.
  intros Hpc Hb Hk.
  replace (k + 2)%nat with ((1 + k) + 1)%nat by lia.
  rewrite run_status_add, spin_iterations by assumption.
  cbn [run_status]. unfold do_move, status_input. cbn [halted pc trace].
  rewrite queries_made_app.
  change (EvDelay (MAX_CONNECT_DELAY cfg) :: aws_answers b k)
    with ([EvDelay (MAX_CONNECT_DELAY cfg)] ++ aws_answers b k).
  rewrite queries_made_app, queries_made_aws_answers.
  replace (queries_made (trace s)
           + (queries_made [EvDelay (MAX_CONNECT_DELAY cfg)] + k)
           - queries_made (trace s))%nat with k
    by (unfold queries_made; simpl; lia).
  unfold main_step, is_aws_connected; cbn [pc connected].
  rewrite Hk. unfold_state.
  unfold aws_answers. rewrite seq_S, map_app. simpl.
  rewrite Hk.
  now rewrite <- app_assoc.
Qed.

Lemma spin_exit_needs_true cfg r0 b base (n : nat) : forall s,
  (exists k, b k = true) \/ pc s = L151 \/ pc s = L153 ->
  pc (run_status cfg r0 b base n s) = L159 ->
  exists k, b k = true.
Proof.
  induction n as [|n IH]; intros s Q H; simpl in H.
  - destruct Q as [Q|[Q|Q]]; [exact Q| congruence ..].
  - apply IH in H; [exact H|].
    destruct Q as [Q|Q]; [now left|].
    destruct s as [p f rs resp dr t]; simpl in *.
    destruct Q as [-> | ->]; unfold do_move; simpl.
    + right. right. reflexivity.
    + unfold main_step, is_aws_connected, status_input; simpl.
      destruct (b (queries_made t - base)%nat) eqn:E; simpl.
      * left. eauto.
      * right. right. reflexivity.
Qed.

(** X6.  The tail of the legacy flow (lines 151-154), against a module that
    answers the k-th cloud-status query with [b k]: after the one delay of
    [MAX_CONNECT_DELAY] the status is queried back to back, with no delay and
    no command in between, and the topic command of line 159 is reached
    exactly when some [b k] is true, after one query more than the number of
    false answers before the first true one. *)
Theorem legacy_spin_terminates_iff cfg r0 (b : nat -> bool) s :
  AWS_FLOW cfg = false -> pc s = L151 ->
  ((exists n, pc (run_status cfg r0 b (queries_made (trace s)) n s) = L159)
   <-> (exists k, b k = true)) /\
  (forall k, b k = true -> (forall j, (j < k)%nat -> b j = false) ->
     run_status cfg r0 b (queries_made (trace s)) (k + 2) s
     = {| pc := L159; gpio_intr_flag := gpio_intr_flag s; result := result s;
          response := response s; drain_result := drain_result s;
          trace := trace s ++ EvDelay (MAX_CONNECT_DELAY cfg)
                              :: aws_answers b (S k) |}).
Proof.
  intros _ Hpc. split; [split|].
  - intros [n H].
    apply (spin_exit_needs_true cfg r0 b (queries_made (trace s)) n s); auto.
  - intros [k Hk]. apply first_true in Hk. destruct Hk as [k' [Hk' Hlt]].
    exists (k' + 2)%nat. now rewrite spin_completes.
  - intros k Hk Hlt. now apply spin_completes.
Qed.


Lemma queries_made_wifi_polls b k : queries_made (wifi_polls b k) = k.
Proof.
  unfold wifi_polls.
  induction k as [|k IH]; [reflexivity|].
  rewrite seq_S, flat_map_app, queries_made_app, IH.
  unfold queries_made. simpl. lia.
Qed.

Lemma wifi_polls_snoc b k :
  wifi_polls b (S k)
  = wifi_polls b k ++ [EvIsWifi (b k); EvDelay POLLING_DELAY].
Proof.
  unfold wifi_polls. now rewrite seq_S, flat_map_app.
Qed.

Lemma poll_index t c tm ex r l (k : nat) :
  queries_made l = k ->
  (queries_made (t ++ EvCmd c tm ex r :: l) - queries_made t)%nat = k.
Proof.
  intro H. change (EvCmd c tm ex r :: l) with ([EvCmd c tm ex r] ++ l).
  rewrite !queries_made_app, H. unfold queries_made at 2. simpl. lia.
Qed.

Lemma poll_iteration cfg r0 b base s :
  pc s = W231 ->
  b (queries_made (trace s) - base)%nat = false ->
  run_status cfg r0 b base 2 s
  = {| pc := W231; gpio_intr_flag := gpio_intr_flag s; result := result s;
       response := response s; drain_result := drain_result s;
       trace := trace s ++ [EvIsWifi false; EvDelay POLLING_DELAY] |}.
Proof.
  intros Hpc Hb. destruct s as [p f r resp dr t]; simpl in *; subst p.
  set (x := {| pc := W231; gpio_intr_flag := f; result := r;
               response := resp; drain_result := dr; trace := t |}).
  assert (E : do_move cfg (Go (status_input r0 b base x)) x
              = {| pc := W233; gpio_intr_flag := f; result := r;
                   response := resp; drain_result := dr;
                   trace := t ++ [EvIsWifi false] |}).
  { unfold do_move, status_input. simpl.
    unfold main_step, wifionboarding, is_wifi_connected. simpl.
    rewrite Hb. reflexivity. }
  rewrite E. unfold do_move, main_step, wifionboarding. simpl.
  unfold_state. now rewrite <- app_assoc.
Qed.

Lemma poll_exit cfg r0 b base s :
  pc s = W231 ->
  b (queries_made (trace s) - base)%nat = true ->
  run_status cfg r0 b base 1 s
  = {| pc := wifionboarding_return cfg; gpio_intr_flag := gpio_intr_flag s;
       result := result s; response := response s;
       drain_result := drain_result s;
       trace := trace s ++ [EvIsWifi true] |}.
Proof.
  intros Hpc Hb. destruct s as [p f r resp dr t]; simpl in *; subst p.
  unfold do_move, status_input. simpl.
  unfold main_step, wifionboarding, is_wifi_connected. simpl.
  rewrite Hb. reflexivity.
Qed.

Lemma poll_iterations cfg r0 b s (k : nat) :
  pc s = W227 ->
  (forall j, (j < k)%nat -> b j = false) ->
  run_status cfg r0 b (queries_made (trace s)) (1 + 2 * k) s
  = {| pc := W231; gpio_intr_flag := gpio_intr_flag s;
       result := status (at_command_send_receive AT_CONFMODE RESPONSE_DELAY
                           None r0);
       response := response s; drain_result := drain_result s;
       trace := trace s ++ EvCmd AT_CONFMODE RESPONSE_DELAY None r0
                           :: wifi_polls b k |}.
Proof.
  intro Hpc. induction k as [|k IH]; intro Hb.
  - destruct s as [p f r resp dr t]; simpl in *; subst. reflexivity.
  - replace (1 + 2 * S k)%nat with ((1 + 2 * k) + 2)%nat by lia.
    rewrite run_status_add, IH by (intros j Hj; apply Hb; lia).
    rewrite poll_iteration;
      cbn [pc trace gpio_intr_flag result response drain_result];
      [|reflexivity
       |rewrite (poll_index _ _ _ _ _ _ k) by apply queries_made_wifi_polls;
        apply Hb; lia].
    rewrite wifi_polls_snoc, (Hb k) by lia.
    now rewrite <- app_assoc.
Qed.

Lemma poll_completes cfg r0 b s (k : nat) :
  pc s = W227 ->
  (forall j, (j < k)%nat -> b j = false) ->
  b k = true ->
  run_status cfg r0 b (queries_made (trace s)) (2 * k + 2) s
  = {| pc := wifionboarding_return cfg; gpio_intr_flag := gpio_intr_flag s;
       result := status (at_command_send_receive AT_CONFMODE RESPONSE_DELAY
                           None r0);
       response := response s; drain_result := drain_result s;
       trace := trace s ++ EvCmd AT_CONFMODE RESPONSE_DELAY None r0
                           :: wifi_polls b k ++ [EvIsWifi true] |}.
Proof.
  intros Hpc Hb Hk.
  replace (2 * k + 2)%nat with ((1 + 2 * k) + 1)%nat by lia.
  rewrite run_status_add, poll_iterations by assumption.
  rewrite poll_exit;
    cbn [pc trace gpio_intr_flag result response drain_result];
    [|reflexivity
     |rewrite (poll_index _ _ _ _ _ _ k) by apply queries_made_wifi_polls;
      exact Hk].
  now rewrite <- app_assoc.
Qed.

Lemma poll_exit_needs_true cfg r0 b base (n : nat) : forall s,
  (exists k, b k = true) \/ pc s = W227 \/ pc s = W231 \/ pc s = W233 ->
  pc (run_status cfg r0 b base n s) = wifionboarding_return cfg ->
  exists k, b k = true.
Proof.
  induction n as [|n IH]; intros s Q H; simpl in H.
  - destruct Q as [Q|[Q|[Q|Q]]]; [exact Q|..];
      rewrite Q in H; unfold wifionboarding_return in H;
      destruct (AWS_FLOW cfg); discriminate.
  - apply IH in H; [exact H|].
    destruct Q as [Q|Q]; [now left|].
    destruct s as [p f rs resp dr t]; simpl in *.
    destruct Q as [-> | [-> | ->]]; unfold do_move; simpl.
    + right. right. left. reflexivity.
    + unfold main_step, wifionboarding, is_wifi_connected, status_input;
        simpl.
      destruct (b (queries_made t - base)%nat) eqn:E; simpl.
      * left. eauto.
      * right. right. right. reflexivity.
    + right. right. left. reflexivity.
Qed.

(** X7.  [wifionboarding] with [CIRRENT_APP_ONBOARDING] on, against a module
    that answers the k-th Wi-Fi status query with [b k]: [AT+CONFMODE] is sent
    once, then every false answer is followed by one delay of [POLLING_DELAY]
    and another query; the function returns exactly when some [b k] is true,
    right after the first true answer and without a further delay. *)
Theorem companion_onboarding_polls cfg r0 (b : nat -> bool) s :
  CIRRENT_APP_ONBOARDING cfg = true -> pc s = W227 ->
  ((exists n, pc (run_status cfg r0 b (queries_made (trace s)) n s)
              = wifionboarding_return cfg)
   <-> (exists k, b k = true)) /\
  (forall k, b k = true -> (forall j, (j < k)%nat -> b j = false) ->
     run_status cfg r0 b (queries_made (trace s)) (2 * k + 2) s
     = {| pc := wifionboarding_return cfg;
          gpio_intr_flag := gpio_intr_flag s;
          result := status (at_command_send_receive AT_CONFMODE
                              RESPONSE_DELAY None r0);
          response := response s; drain_result := drain_result s;
          trace := trace s ++ EvCmd AT_CONFMODE RESPONSE_DELAY None r0
                              :: wifi_polls b k ++ [EvIsWifi true] |}).
Proof.
  intros _ Hpc. split; [split|].
  - intros [n H].
    apply (poll_exit_needs_true cfg r0 b (queries_made (trace s)) n s); auto.
  - intros [k Hk]. apply first_true in Hk. destruct Hk as [k' [Hk' Hlt]].
    exists (2 * k' + 2)%nat. now rewrite poll_completes.
  - intros k Hk Hlt. now apply poll_completes.
Qed.

Lemma legacy_spin_terminates_iff_witness :
  let legacy := {| MODIFY_SSID_AFTER_CONNECTED := false;
                   CIRRENT_APP_ONBOARDING := true;
                   AWS_FLOW := false;
                   MAX_CONNECT_DELAY := 120000 |} in
  let s0 := {| pc := L151; gpio_intr_flag := false; result := 1;
               response := None; drain_result := 0; trace := [] |} in
  let b := fun k : nat => Nat.leb 2 k in
  run_status legacy None b (queries_made (trace s0)) (2 + 2) s0
  = {| pc := L159; gpio_intr_flag := false; result := 1;
       response := None; drain_result := 0;
       trace := trace s0 ++ EvDelay 120000 :: aws_answers b 3 |}.
Proof.
  intros legacy s0 b.
  apply (proj2 (legacy_spin_terminates_iff legacy None b s0 eq_refl eq_refl)
           2%nat).
  - reflexivity.
  - intros j Hj. destruct j as [|[|j]]; [reflexivity|reflexivity|lia].
Defined.

Lemma companion_onboarding_polls_witness :
  let legacy := {| MODIFY_SSID_AFTER_CONNECTED := false;
                   CIRRENT_APP_ONBOARDING := true;
                   AWS_FLOW := false;
                   MAX_CONNECT_DELAY := 120000 |} in
  let s0 := {| pc := W227; gpio_intr_flag := false; result := 0;
               response := None; drain_result := 0; trace := [] |} in
  let b := fun k : nat => Nat.leb 1 k in
  run_status legacy (Some OK_IDLE) b (queries_made (trace s0)) (2 * 1 + 2) s0
  = {| pc := L143; gpio_intr_flag := false; result := SUCCESS;
       response := None; drain_result := 0;
       trace := trace s0
                ++ EvCmd AT_CONFMODE RESPONSE_DELAY None (Some OK_IDLE)
                   :: wifi_polls b 1 ++ [EvIsWifi true] |}.
Proof.
  intros legacy s0 b.
  apply (proj2 (companion_onboarding_polls legacy (Some OK_IDLE) b s0
                  eq_refl eq_refl) 1%nat).
  - reflexivity.
  - intros j Hj. destruct j as [|j]; [reflexivity|lia].
Defined.

(* ------------------------------------------------------------------------- *)
(** ** The layout of a trace *)

(** What [trace_shape] says in the event loop. *)
Lemma looping_shape s :
  looping (pc s) = true -> trace_shape s ->
  exists before r1 r2 rs post,
    before_loop before /\ busy rs /\ unexpecting post /\
    trace s = before ++ [topic_exchange r1; subscribe_exchange r2]
              ++ map drain_query rs ++ [drain_query (Some OK_IDLE)]
              ++ post.
Proof.
  unfold trace_shape. destruct (pc s) as [| | | | | | | | | | | | | | | | | | | | | | | | | | | | | | |[]];
    try discriminate; auto.
Qed.

(** Equal lists up to the bracketing of their appends. *)
Ltac list_assoc :=
  simpl; repeat (rewrite <- app_assoc; simpl); reflexivity.

Lemma trace_shape_step cfg s m :
  trace_shape s -> trace_shape (do_move cfg m s).
Proof.
  intro H. unfold do_move. destruct (halted s) eqn:Hh; [exact H|].
  destruct m as [|i].
  { destruct s as [p f r resp dr t]. destruct p; exact H. }
  destruct (looping (pc s)) eqn:Hl.
  - (* in the event loop *)
    destruct (looping_shape s Hl H)
      as [before [r1 [r2 [rs [post [Hb [Hrs [Hpost Ht]]]]]]]].
    destruct s as [p f r resp dr t]; simpl in *. subst t.
    destruct p; try discriminate Hl; try discriminate Hh; run_step;
      try destruct (classify resp) as [[]|];
      unfold trace_shape; unfold_state; split_conds cfg;
      try (exists before, r1, r2, rs, post; repeat split; assumption);
      eexists before, r1, r2, rs, (post ++ [_]);
      (split; [exact Hb|]); (split; [exact Hrs|]);
      (split; [|list_assoc]);
      apply Forall_app; (split; [exact Hpost|repeat constructor]).
  - (* before the event loop *)
    destruct s as [p f r resp dr t]; unfold trace_shape in H; simpl in *.
    destruct p; try discriminate Hl; try discriminate Hh.
    all: try (run_step; try destruct (connected i);
              unfold trace_shape; unfold_state; split_conds cfg;
              solve [ exact H | now apply before_loop_snoc ]).
    + (* line 159 *)
      run_step. unfold trace_shape; simpl.
      exists t, (reply i). split; [exact H|reflexivity].
    + (* line 161 *)
      destruct H as [before [r1 [Hb ->]]].
      run_step. unfold trace_shape; simpl.
      exists before, r1, (reply i). split; [exact Hb|].
      now rewrite <- app_assoc.
    + (* line 254 *)
      destruct H as [before [r1 [r2 [Hb ->]]]].
      run_step. unfold trace_shape; simpl.
      exists before, r1, r2, []. split; [exact Hb|]. split; [constructor|].
      left. split; [reflexivity|]. simpl. reflexivity.
    + (* line 256 *)
      destruct H as [before [r1 [r2 [rs [Hb [Hrs [[Hd Ht]|[Hd Ht]]]]]]]];
        run_step; subst t.
      * rewrite Hd. simpl. unfold trace_shape; simpl.
        exists before, r1, r2, rs. auto.
      * destruct (dr =? 0) eqn:E; [apply Z.eqb_eq in E; contradiction|].
        unfold trace_shape; simpl.
        exists before, r1, r2, rs, []. repeat split; auto. constructor.
    + (* line 258 *)
      destruct H as [before [r1 [r2 [rs [Hb [Hrs ->]]]]]].
      run_step. unfold trace_shape; simpl.
      destruct (engine_status_01 AT_EVENT RESPONSE_DELAY (Some OK_IDLE)
                  (reply i)) as [E|E].
      * exists before, r1, r2, (rs ++ [reply i]). split; [exact Hb|].
        split.
        { apply Forall_app. split; [exact Hrs|]. constructor; [|constructor].
          intro Hr. rewrite Hr, engine_match in E. discriminate E. }
        left. split; [exact E|].
        rewrite map_app. simpl. now rewrite <- !app_assoc.
      * exists before, r1, r2, rs. split; [exact Hb|]. split; [exact Hrs|].
        right. split; [rewrite E; discriminate|].
        apply engine_status_expected in E. rewrite E.
        now rewrite <- !app_assoc.
Qed.

Lemma trace_shape_init cfg : trace_shape (init cfg).
Proof.
  unfold trace_shape, init, main_entry, flow_entry. simpl.
  destruct (MODIFY_SSID_AFTER_CONNECTED cfg), (AWS_FLOW cfg); constructor.
Qed.

Lemma trace_shape_exec cfg ms : trace_shape (exec cfg ms (init cfg)).
Proof.
  apply exec_invariant; [intros; now apply trace_shape_step
                        |apply trace_shape_init].
Qed.

(** A run of the build of [main.c] through the drain and one pass. *)
Example shape_of_a_pass :
  let up := {| reply := Some OK_IDLE; connected := true |} in
  let msg := {| reply := Some EV_MSG; connected := true |} in
  let ms := [Go up; Go up; Go up; Go up; Go up; Go up; Go up;
             Irq; Go up; Go msg; Go up; Go msg] in
  pc (exec build ms (init build)) = L205 /\
  trace (exec build ms (init build))
  = [EvIsAws true] ++ [topic_exchange (Some OK_IDLE);
                       subscribe_exchange (Some OK_IDLE)]
    ++ map drain_query [] ++ [drain_query (Some OK_IDLE)]
    ++ [event_query (Some EV_MSG);
        EvCmd AT_GET1 RESPONSE_DELAY None (Some EV_MSG)].
Proof. split; reflexivity. Qed.

(* ------------------------------------------------------------------------- *)
(** ** Provisioning when the cloud connection is already up: the statement *)

(** C2 (as amended).  In every execution whose first cloud-connection query
    is answered with true, whatever the build switches, no connect command is
    ever sent and the only configuration command sent is the topic command
    ["AT+CONF Topic1=data\n"] of line 159.  That command is sent: the query
    answered with true is directly followed by the topic command and by
    [AT+SUBSCRIBE1], after which the drain starts; and on every run the event
    loop is entered only after the topic command, [AT+SUBSCRIBE1] and the
    queries of the drain. *)
Theorem provisioning_skipped_when_connected cfg :
  (forall ms,
     let s := exec cfg ms (init cfg) in
     first_aws_status (trace s) = Some true ->
     forall c tm e r,
       In (EvCmd c tm e r) (trace s) ->
       is_connect_command c = false /\
       (is_conf_command c = true -> c = AT_CONF_TOPIC1)) /\
  (forall ms i0 i1 i2 i3,
     connected i1 = true ->
     main_inputs ms
     = (if MODIFY_SSID_AFTER_CONNECTED cfg then [i0] else [])
       ++ [i1; i2; i3] ->
     pc (exec cfg ms (init cfg)) = D254 /\
     trace (exec cfg ms (init cfg))
     = (if MODIFY_SSID_AFTER_CONNECTED cfg
        then [disconnect_exchange (reply i0)] else [])
       ++ [EvIsAws true; topic_exchange (reply i2);
           subscribe_exchange (reply i3)]) /\
  (forall ms,
     let s := exec cfg ms (init cfg) in
     looping (pc s) = true ->
     exists before r1 r2 rs post,
       before_loop before /\
       trace s = before ++ [topic_exchange r1; subscribe_exchange r2]
                 ++ map drain_query rs ++ [drain_query (Some OK_IDLE)]
                 ++ post).
Proof.
  split; [|split].
  - intros ms s Hfirst c tm e r I.
    assert (Inv : skip_inv s)
      by (apply exec_invariant; [intros; now apply skip_inv_step
                                | apply skip_inv_init]).
    unfold skip_inv in Inv. rewrite Hfirst in Inv. destruct Inv as [_ Hall].
    rewrite Forall_forall in Hall. apply Hall in I. simpl in I.
    apply andb_prop in I. destruct I as [I1 I2].
    split; [now apply negb_true_iff in I1|].
    intro Hc. rewrite Hc in I2. simpl in I2. now apply String.eqb_eq in I2.
  - intros ms i0 i1 i2 i3 H1 Hin.
    destruct cfg as [m c a d], i1 as [r1 c1]; simpl in *; subst c1.
    unfold init, main_entry, flow_entry; simpl.
    destruct m, a; simpl in *;
      match goal with
      | |- context [exec ?c ms ?s] =>
          destruct (exec_blind_run c ms s) as [b E]
      end;
      try (rewrite E); rewrite Hin; cbn [blind_path main_run];
      eval_main_steps; try reflexivity;
      simpl; split; reflexivity.
  - intros ms s Hl.
    destruct (looping_shape s Hl (trace_shape_exec cfg ms))
      as [before [r1 [r2 [rs [post [Hb [_ [_ Ht]]]]]]]].
    exists before, r1, r2, rs, post. split; assumption.
Qed.

Lemma provisioning_skipped_when_connected_witness :
  let up := {| reply := Some OK_IDLE; connected := true |} in
  let ms := [Go up; Irq; Go up; Go up] in
  (pc (exec build ms (init build)) = D254 /\
   trace (exec build ms (init build))
   = [] ++ [EvIsAws true; topic_exchange (Some OK_IDLE);
            subscribe_exchange (Some OK_IDLE)]) /\
  (is_connect_command AT_CONF_TOPIC1 = false /\
   (is_conf_command AT_CONF_TOPIC1 = true -> AT_CONF_TOPIC1 = AT_CONF_TOPIC1)).
Proof.
  intros up ms. split.
  - apply (proj1 (proj2 (provisioning_skipped_when_connected build))
             ms up up up up); reflexivity.
  - apply (proj1 (provisioning_skipped_when_connected build) ms eq_refl
             AT_CONF_TOPIC1 RESPONSE_DELAY None (Some OK_IDLE)).
    simpl. auto.
Defined.

(** C2 as stated fails: with the cloud connection already up the flow still
    sends the configuration command of line 159 before it enters the event
    loop at line 168. *)
Lemma provisioning_skipped_counterexample :
  let up := {| reply := Some OK_IDLE; connected := true |} in
  let s := exec build [Go up; Go up; Go up; Go up; Go up; Go up; Go up]
             (init build) in
  first_aws_status (trace s) = Some true /\
  pc s = L168 /\
  trace s = [EvIsAws true;
             EvCmd AT_CONF_TOPIC1 RESPONSE_DELAY None (Some OK_IDLE);
             EvCmd AT_SUBSCRIBE1 RESPONSE_DELAY None (Some OK_IDLE);
             drain_query (Some OK_IDLE)] /\
  is_conf_command AT_CONF_TOPIC1 = true.
Proof. repeat split. Qed.

(* ------------------------------------------------------------------------- *)
(** ** The exchanges of an execution *)

(** X10.  Every engine exchange of every execution, under every build, uses
    the timeout [RESPONSE_DELAY], sends a newline-terminated command, and
    carries an expected reply only if it is the connect command of the primary
    flow or an [AT+EVENT?] expecting the idle literal.  In the event loop the
    trace is laid out as provisioning, topic, subscribe, the queries of the
    drain and the exchanges of the loop: no [AT+EVENT?] comes before the topic
    command, the queries expecting the idle literal are the consecutive ones
    of the drain, only the last of them answered with it, and every exchange
    after them, the event query of line 171 included, passes [NULL]. *)
Theorem exchange_vocabulary cfg ms :
  let s := exec cfg ms (init cfg) in
  (forall c tm ex r,
     In (EvCmd c tm ex r) (trace s) ->
     tm = RESPONSE_DELAY /\
     (exists text, c = (text ++ nl)%string) /\
     (ex = None \/
      (c = AT_CONNECT /\ ex = Some OK_CONNECTED /\ AWS_FLOW cfg = true) \/
      (c = AT_EVENT /\ ex = Some OK_IDLE))) /\
  (looping (pc s) = true ->
   exists before r1 r2 rs post,
     before_loop before /\ busy rs /\ unexpecting post /\
     trace s = before ++ [topic_exchange r1; subscribe_exchange r2]
               ++ map drain_query rs ++ [drain_query (Some OK_IDLE)]
               ++ post).
Proof.
  intro s. split.
  - intros c tm ex r H. subst s.
    apply exec_event_enabled in H. destruct H as [-> H].
    split; [reflexivity|].
    destruct cfg as [[] [] [] d]; simpl in H;
      repeat (destruct H as [H|H]); try contradiction;
      injection H as <- <-;
      (split; [eexists; reflexivity|]); auto.
  - intro Hl. exact (looping_shape s Hl (trace_shape_exec cfg ms)).
Qed.

Lemma exchange_vocabulary_witness :
  let up := {| reply := Some OK_IDLE; connected := true |} in
  let msg := {| reply := Some EV_MSG; connected := true |} in
  let ms := [Go up; Go up; Go up; Go up; Go up; Go up; Go up;
             Irq; Go up; Go msg; Go up; Go msg] in
  (RESPONSE_DELAY = RESPONSE_DELAY /\
   (exists text, AT_EVENT = (text ++ nl)%string) /\
   (Some OK_IDLE = None \/
    (AT_EVENT = AT_CONNECT /\ Some OK_IDLE = Some OK_CONNECTED /\
     AWS_FLOW build = true) \/
    (AT_EVENT = AT_EVENT /\ Some OK_IDLE = Some OK_IDLE))) /\
  (exists before r1 r2 rs post,
     before_loop before /\ busy rs /\ unexpecting post /\
     trace (exec build ms (init build))
     = before ++ [topic_exchange r1; subscribe_exchange r2]
       ++ map drain_query rs ++ [drain_query (Some OK_IDLE)] ++ post).
Proof.
  intros up msg ms. split.
  - apply (proj1 (exchange_vocabulary build ms)
             AT_EVENT RESPONSE_DELAY (Some OK_IDLE) (Some OK_IDLE)).
    simpl. auto 10.
  - exact (proj2 (exchange_vocabulary build ms) eq_refl).
Defined.
